(** * gatsby-source-contentful: cascaded context and schema generation

  A shallow embedding of

  - [packages/gatsby-source-contentful/src/cascaded-context.js]
    ([getPath], [findLongestPrefix], [CascadedContext]), and
  - the schema generator ([ContentfulDataTypes], [getLinkFieldType],
    [translateFieldType], [generateSchema]),

  together with the properties of both that the specification states. *)

From Stdlib Require Import Ascii NArith DecimalString Lia.
From stdpp Require Import base option list strings gmap.

(** ** JavaScript values used by both files *)

Module Js.

(** The two error classes that occur: [Error] is thrown by the code
    itself, [TypeError] by the runtime (reading a property of
    [undefined], calling a value that is not a function). *)
Inductive ErrorClass := Error | TypeError.

Record Exception := mkException { class : ErrorClass; message : string }.

(** How a call ends: with a value, or with a thrown exception. *)
Inductive Completion (A : Type) :=
| Return (a : A)
| Throw (e : Exception).
Arguments Return {A} a.
Arguments Throw {A} e.

(** [ToBoolean] on a string: only the empty string is falsy. *)
Definition truthy (s : string) : bool :=
  match s with EmptyString => false | String _ _ => true end.

(** [ToBoolean] on a string that may be [undefined]. *)
Definition truthy_opt (s : option string) : bool :=
  match s with None => false | Some s => truthy s end.

(** A string that may be [undefined], in a template literal. *)
Definition interpolate (s : option string) : string :=
  match s with None => "undefined" | Some s => s end.

(** [String.prototype.startsWith]. *)
Fixpoint startsWith (target prefix : string) {struct prefix} : bool :=
  match prefix, target with
  | EmptyString, _ => true
  | String _ _, EmptyString => false
  | String c p, String d t => if Ascii.eqb c d then startsWith t p else false
  end.

(** [Array.prototype.join] on an array of strings. *)
Fixpoint join (sep : string) (l : list string) : string :=
  match l with
  | [] => ""
  | [s] => s
  | s :: rest => s +:+ sep +:+ join sep rest
  end.

(** A [Map] with string keys: its entries in insertion order. *)
Definition StringMap (V : Type) : Type := list (string * V).

(** [Map.prototype.get]; [None] is [undefined]. *)
Fixpoint Map_get {V} (m : StringMap V) (k : string) : option V :=
  match m with
  | [] => None
  | (k', v) :: rest => if String.eqb k' k then Some v else Map_get rest k
  end.

(** [Map.prototype.set]: an existing key keeps its place. *)
Fixpoint Map_set {V} (m : StringMap V) (k : string) (v : V) : StringMap V :=
  match m with
  | [] => [(k, v)]
  | (k', v') :: rest =>
      if String.eqb k' k then (k', v) :: rest else (k', v') :: Map_set rest k v
  end.

(** [Map.prototype.keys] *)
Definition Map_keys {V} (m : StringMap V) : list string := map fst m.

(** [obj[key] = value] for an object [value], on an object made by [{}]
    and given here by its own properties. Every key but one gets an own
    property. The key [__proto__] reaches the setter inherited from
    [Object.prototype]: the assignment replaces the prototype of the
    object and makes no property. Inherited properties are never read
    from such an object below (a spread copies own properties), so the
    prototype is not kept. *)
Definition setProperty {V} (obj : gmap string V) (key : string) (value : V)
  : gmap string V :=
  if String.eqb key "__proto__" then obj else <[key := value]> obj.

End Js.

(** ** cascaded-context.js *)

Module Cascade.
Import Js.

(** The [key] of a traversal-path node: a field name, a list index, or
    nothing at all. *)
Inductive Key :=
| KString (s : string)
| KNumber (n : N)
| KUndefined.

(** [String(key)], which is also what a template literal does to it.
    A number key is a list index, printed in decimal. *)
Definition keyString (k : Key) : string :=
  match k with
  | KString s => s
  | KNumber n => NilEmpty.string_of_uint (N.to_uint n)
  | KUndefined => "undefined"
  end.

(** A traversal-path node [{key, prev}]; [prev] is absent at the root. *)
#[warnings="-register-all"]
Inductive Path := mkPath { key : Key; prev : option Path }.

(** The body of [getPath] once [path] is known to be defined:
<<
const newPath = currentPath ? `${path.key}:${currentPath}` : String(path.key)
if (!path.prev) { return newPath }
return getPath(path.prev, newPath)
>>
    The recursive call always passes a defined [path], so the check of
    line 2 can only fire on the outermost call. *)
Fixpoint getPath_defined (path : Path) (currentPath : option string) : string :=
  let newPath :=
    match currentPath with
    | Some cp =>
        if truthy cp then keyString (key path) +:+ ":" +:+ cp
        else keyString (key path)
    | None => keyString (key path)
    end in
  match prev path with
  | None => newPath
  | Some p => getPath_defined p (Some newPath)
  end.

Definition getPath (path : option Path) (currentPath : option string)
  : Completion string :=
  match path with
  | None => Throw (mkException Error "path was undefined")
  | Some p => Return (getPath_defined p currentPath)
  end.

(** The loop of [findLongestPrefix], with its two variables [match] and
    [matchLength] as accumulators. *)
Fixpoint findLongestPrefix_loop (target : string) (prefixes : list string)
    (match_ : option string) (matchLength : nat) : option string :=
  match prefixes with
  | [] => match_
  | prefix :: rest =>
      if startsWith target prefix then
        let length := String.length prefix in
        if matchLength <? length
        then findLongestPrefix_loop target rest (Some prefix) length
        else findLongestPrefix_loop target rest match_ matchLength
      else findLongestPrefix_loop target rest match_ matchLength
  end.

Definition findLongestPrefix (target : string) (prefixes : list string)
  : option string :=
  findLongestPrefix_loop target prefixes None 0.

(** The argument of [set] and [get]: an object whose [path] property may
    be missing. *)
Record Info := mkInfo { path : option Path }.

Section Context.

Context {T : Type}.

(** A [CascadedContext] object. The class only declares [cascadeMap];
    [defaultValue] is read by [get] and is [undefined] ([None]) unless
    the owner assigned it. *)
Record CascadedContext := mkContext {
  cascadeMap : StringMap T;
  defaultValue : option T
}.

Definition new : CascadedContext :=
  {| cascadeMap := []; defaultValue := None |}.

Definition set (this : CascadedContext) (info : Info) (value : T)
  : Completion CascadedContext :=
  match getPath (path info) None with
  | Throw e => Throw e
  | Return path =>
      Return {| cascadeMap := Map_set (cascadeMap this) path value;
                defaultValue := defaultValue this |}
  end.

(** The result is [None] where the method returns [undefined]. *)
Definition get (this : CascadedContext) (info : Info)
  : Completion (option T) :=
  match getPath (path info) None with
  | Throw e => Throw e
  | Return path =>
      let cascadeKeys := Map_keys (cascadeMap this) in
      let lastCascade := findLongestPrefix path cascadeKeys in
      match lastCascade with
      | Some k =>
          if truthy k then Return (Map_get (cascadeMap this) k)
          else Return (defaultValue this)
      | None => Return (defaultValue this)
      end
  end.

(** [has]; [strictEquals] is [===] on the values. *)
Definition has (strictEquals : T -> T -> bool) (this : CascadedContext)
    (value : T) : bool :=
  existsb (fun entry => strictEquals entry.2 value) (cascadeMap this).

End Context.
Arguments CascadedContext T : clear implicits.

(** *** Notions the properties are stated with *)

(** The keys of a chain as strings, the given node's first and the
    root's last. *)
Fixpoint chainKeys (p : Path) : list string :=
  keyString (key p) ::
  match prev p with
  | None => []
  | Some q => chainKeys q
  end.

(** A list of keys without the empty strings it starts with. *)
Fixpoint dropEmpty (l : list string) : list string :=
  match l with
  | [] => []
  | s :: rest => if truthy s then l else dropEmpty rest
  end.


(** [a] is [b] or lies on the chain from [b] to the root. *)
Inductive ancestorOrSelf (a : Path) : Path -> Prop :=
| ancestor_self : ancestorOrSelf a a
| ancestor_prev (b p : Path) :
    prev b = Some p -> ancestorOrSelf a p -> ancestorOrSelf a b.

(** [r] is what a search for the longest prefix of [target] among [keys]
    may answer: a non-empty key that is a prefix and as long as any key
    that is one, or nothing when no non-empty key is a prefix. *)
Definition longestPrefix (target : string) (keys : list string)
    (r : option string) : Prop :=
  match r with
  | None => forall k, In k keys -> startsWith target k = true -> k = ""
  | Some k =>
      In k keys /\ k <> "" /\ startsWith target k = true /\
      forall k', In k' keys -> startsWith target k' = true ->
                 String.length k' <= String.length k
  end.

End Cascade.

(** ** The schema generator *)

Module Schema.
Import Js.

(** *** The content model *)

(** The [linkContentType] of a validation: one name or an array of names. *)
Inductive LinkContentType :=
| LctString (s : string)
| LctArray (names : list string).

(** A validation record. Only its [linkContentType] property is read;
    a validation of any other shape has none. *)
Record Validation := mkValidation { linkContentType : option LinkContentType }.

(** A field of a content type, or the [items] of an array field. A
    property that may be missing is an [option]. *)
#[warnings="-register-all"]
Inductive FieldDefinition := mkField {
  id : option string;
  type : string;
  required : bool;
  disabled : bool;
  omitted : bool;
  items : option FieldDefinition;
  linkType : option string;
  validations : option (list Validation)
}.

Record ContentTypeItem := mkContentTypeItem {
  sys_id : string;
  name : option string;
  fields : list FieldDefinition
}.

(** *** Type descriptors and what [createTypes] receives *)

Record Link := mkLink { link_by : string; link_from : string }.

(** The [extensions] objects that occur: [{ link: {by, from} }] and
    [{ dateformat: {} }]. *)
Inductive Extensions :=
| LinkExtension (link : Link)
| DateformatExtension.

(** [{ type, extensions }]; [typeExpr] is the [type] property. *)
Record TypeDescriptor := mkDescriptor {
  typeExpr : string;
  extensions : option Extensions
}.

(** The resolvers of the fixed rich-text types, by name. *)
Inductive Resolver :=
| RichTextLinksResolver (nodeType entityType : string)
| ReturnSource.

(** One entry of an object type's [fields]: a type string, or a
    descriptor that may carry a resolver. *)
Inductive FieldConfig :=
| TypeString (s : string)
| Config (d : TypeDescriptor) (resolve : option Resolver).

(** An argument of [createTypes]: a string of type definitions, or what
    [schema.buildUnionType] and [schema.buildObjectType] return. *)
Inductive TypeDef :=
| Sdl (text : string)
| UnionType (name : string) (types : list string)
| ObjectType (name : string) (fields : gmap string FieldConfig)
    (interfaces : list string) (dontInfer : bool).

(** *** State and control *)

(** The state the module works on: its global [unionsNameSet], and the
    types handed to [createTypes] so far, oldest first. *)
Record World := mkWorld {
  unionsNameSet : gset string;
  declared : list TypeDef
}.

Definition emptyWorld : World := {| unionsNameSet := ∅; declared := [] |}.

(** A computation that reads and changes the state and may throw; the
    state changes made before a throw stay. *)
Definition M (A : Type) : Type := World -> World * Completion A.

Definition ret {A} (a : A) : M A := fun w => (w, Return a).

Definition throw {A} (e : Exception) : M A := fun w => (w, Throw e).

Definition bind {A B} (m : M A) (k : A -> M B) : M B :=
  fun w =>
    match m w with
    | (w', Return a) => k a w'
    | (w', Throw e) => (w', Throw e)
    end.

(** [try { body } catch (err) { handler }]. *)
Definition tryCatch {A} (body : M A) (handler : Exception -> M A) : M A :=
  fun w =>
    match body w with
    | (w', Return a) => (w', Return a)
    | (w', Throw e) => handler e w'
    end.

Notation "'let!' x ':=' m 'in' k" := (bind m (fun x => k))
  (at level 10, x name, m at level 200, k at level 200,
   format "'[v' 'let!'  x  ':='  m  'in' '/' k ']'").

Definition createTypes (t : TypeDef) : M unit :=
  fun w => ({| unionsNameSet := unionsNameSet w;
               declared := declared w ++ [t] |}, Return tt).

Definition unionsNameSet_has (n : string) : M bool :=
  fun w => (w, Return (bool_decide (n ∈ unionsNameSet w))).

Definition unionsNameSet_add (n : string) : M unit :=
  fun w => ({| unionsNameSet := {[ n ]} ∪ unionsNameSet w;
               declared := declared w |}, Return tt).

(** What the runtime throws for [field.items.type] when [items] is missing
    and for calling the result of a failed table lookup. The wording is
    the engine's; nothing below depends on it. *)
Definition itemsUndefined : Exception :=
  mkException TypeError "Cannot read properties of undefined (reading 'type')".

Definition notAFunction : Exception :=
  mkException TypeError "ContentfulDataTypes.get(...) is not a function".

(** *** The primitive table *)

Definition nodeLink (field : FieldDefinition) : Extensions :=
  LinkExtension {| link_by := "id";
                   link_from := interpolate (id field) +:+ "___NODE" |}.

(** The [ContentfulDataTypes] map: its entries in the order written,
    with distinct keys. *)
Definition ContentfulDataTypes : StringMap (FieldDefinition -> TypeDescriptor) :=
  [ ("Symbol", fun _ => {| typeExpr := "String"; extensions := None |});
    ("Text", fun field => {| typeExpr := "ContentfulNodeTypeText";
                             extensions := Some (nodeLink field) |});
    ("Integer", fun _ => {| typeExpr := "Int"; extensions := None |});
    ("Number", fun _ => {| typeExpr := "Float"; extensions := None |});
    ("Date", fun _ => {| typeExpr := "Date";
                         extensions := Some DateformatExtension |});
    ("Object", fun _ => {| typeExpr := "JSON"; extensions := None |});
    ("Boolean", fun _ => {| typeExpr := "Boolean"; extensions := None |});
    ("Location", fun _ => {| typeExpr := "ContentfulNodeTypeLocation";
                             extensions := None |});
    ("RichText", fun _ => {| typeExpr := "ContentfulNodeTypeRichText";
                             extensions := None |}) ].

(** *** Link fields *)

(** [!!linkContentType] *)
Definition isLinkContentTypeValidation (v : Validation) : bool :=
  match linkContentType v with
  | None => false
  | Some (LctString s) => truthy s
  | Some (LctArray _) => true
  end.

(** [Array.isArray(linkContentType) ? linkContentType : [linkContentType]] *)
Definition contentTypesOf (l : LinkContentType) : list string :=
  match l with
  | LctString s => [s]
  | LctArray names => names
  end.

(** [[`UnionContentful`, ...shortTypeNames].join(``)] *)
Definition unionNameOf (shortTypeNames : list string) : string :=
  join "" ("UnionContentful" :: shortTypeNames).

Section Translation.

(** [makeTypeName] is imported from [./normalize]. Both of its arguments
    may be [undefined]; the second one is the prefix and is left out
    where the full name is wanted. *)
Variable makeTypeName : option string -> option string -> string.

Definition getLinkFieldType (linkType : option string) (field : FieldDefinition)
  : M TypeDescriptor :=
  let fallback :=
    ret {| typeExpr := "Contentful" +:+ interpolate linkType;
           extensions := Some (nodeLink field) |} in
  (* field?.items?.validations *)
  match items field ≫= validations with
  | None => fallback
  | Some validations =>
      match List.find isLinkContentTypeValidation validations with
      | None => fallback
      | Some linkContentTypeValidation =>
          let contentTypes :=
            match linkContentType linkContentTypeValidation with
            | Some l => contentTypesOf l
            | None => []
            end in
          let translatedTypeNames :=
            map (fun typeName => makeTypeName (Some typeName) None) contentTypes in
          let shortTypeNames :=
            map (fun typeName => makeTypeName (Some typeName) (Some "")) contentTypes in
          match translatedTypeNames with
          | [single] =>
              ret {| typeExpr := single; extensions := Some (nodeLink field) |}
          | _ =>
              let unionName := unionNameOf shortTypeNames in
              let! registered := unionsNameSet_has unionName in
              let! _ := (if registered then ret tt
                         else let! _ := unionsNameSet_add unionName in
                              createTypes (UnionType unionName translatedTypeNames)) in
              ret {| typeExpr := unionName; extensions := Some (nodeLink field) |}
          end
      end
  end.

(** *** Fields *)

Fixpoint translateFieldType (field : FieldDefinition) : M TypeDescriptor :=
  let! fieldType :=
    (if String.eqb (type field) "Array" then
       match items field with
       | None => throw itemsUndefined
       | Some fieldItems =>
           let! fieldData :=
             (if String.eqb (type fieldItems) "Link"
              then getLinkFieldType (linkType fieldItems) field
              else translateFieldType fieldItems) in
           ret {| typeExpr := "[" +:+ typeExpr fieldData +:+ "]";
                  extensions := extensions fieldData |}
       end
     else if String.eqb (type field) "Link" then
       getLinkFieldType (linkType field) field
     else
       match Map_get ContentfulDataTypes (type field) with
       | None => throw notAFunction
       | Some handler => ret (handler field)
       end) in
  if required field
  then ret {| typeExpr := typeExpr fieldType +:+ "!";
              extensions := extensions fieldType |}
  else ret fieldType.

(** *** The fixed types *)

Definition newline : string := String (ascii_of_nat 10) "".

Definition dquote : string := String (ascii_of_nat 34) "".

Definition sdlInternalReference : string :=
"
    interface ContentfulInternalReference implements Node {
      id: ID!
      sys: ContentfulInternalSys
    }
  ".

Definition sdlContentType : string :=
"
    type ContentfulContentType implements Node {
      id: ID!
      name: String!
      displayField: String!
      description: String!
    }
  ".

Definition sdlInternalSys : string :=
"
    type ContentfulInternalSys @dontInfer {
      type: String!
      id: String!
      spaceId: String!
      environmentId: String!
      contentType: ContentfulContentType @link(by: " +:+ dquote +:+ "id" +:+ dquote
  +:+ ", from: " +:+ dquote +:+ "contentType___NODE" +:+ dquote +:+ ")
      firstPublishedAt: Date!
      publishedAt: Date!
      publishedVersion: Int!
      locale: String!
    }
  ".

Definition sdlEntry : string :=
"
    interface ContentfulEntry implements Node @dontInfer {
      id: ID!
      sys: ContentfulInternalSys
    }
  ".

Definition sdlAsset : string :=
"
    type ContentfulAsset implements ContentfulInternalReference & Node {
      sys: ContentfulInternalSys
      id: ID!
      title: String
      description: String
      contentType: String
      fileName: String
      url: String
      size: Int
      width: Int
      height: Int
    }
  ".

Definition generateAssetTypes : M unit := createTypes (Sdl sdlAsset).

Definition plain (t : string) : TypeDescriptor :=
  {| typeExpr := t; extensions := None |}.

Definition resolved (t : string) (r : Resolver) : FieldConfig :=
  Config (plain t) (Some r).

Definition richTextAssets : TypeDef :=
  ObjectType "ContentfulNodeTypeRichTextAssets"
    {[ "block" := resolved "[ContentfulAsset]!"
                    (RichTextLinksResolver "embedded-asset-block" "Asset");
       "hyperlink" := resolved "[ContentfulAsset]!"
                    (RichTextLinksResolver "asset-hyperlink" "Asset") ]}
    [] false.

Definition richTextEntries : TypeDef :=
  ObjectType "ContentfulNodeTypeRichTextEntries"
    {[ "inline" := resolved "[ContentfulEntry]!"
                    (RichTextLinksResolver "embedded-entry-inline" "Entry");
       "block" := resolved "[ContentfulEntry]!"
                    (RichTextLinksResolver "embedded-entry-block" "Entry");
       "hyperlink" := resolved "[ContentfulEntry]!"
                    (RichTextLinksResolver "entry-hyperlink" "Entry") ]}
    [] false.

Definition richTextLinks : TypeDef :=
  ObjectType "ContentfulNodeTypeRichTextLinks"
    {[ "assets" := resolved "ContentfulNodeTypeRichTextAssets" ReturnSource;
       "entries" := resolved "ContentfulNodeTypeRichTextEntries" ReturnSource ]}
    [] false.

Definition richText : TypeDef :=
  ObjectType "ContentfulNodeTypeRichText"
    {[ "json" := resolved "JSON" ReturnSource;
       "links" := resolved "ContentfulNodeTypeRichTextLinks" ReturnSource ]}
    [] true.

Definition location : TypeDef :=
  ObjectType "ContentfulNodeTypeLocation"
    {[ "lat" := Config (plain "Float!") None;
       "lon" := Config (plain "Float!") None ]}
    [] true.

Definition text : TypeDef :=
  ObjectType "ContentfulNodeTypeText"
    {[ "raw" := TypeString "String!" ]}
    ["Node"] true.

(** Everything [generateSchema] declares before it reaches the content
    types. *)
Definition genericTypes : M unit :=
  let! _ := createTypes (Sdl sdlInternalReference) in
  let! _ := createTypes (Sdl sdlContentType) in
  let! _ := createTypes (Sdl sdlInternalSys) in
  let! _ := createTypes (Sdl sdlEntry) in
  let! _ := generateAssetTypes in
  let! _ := createTypes richTextAssets in
  let! _ := createTypes richTextEntries in
  let! _ := createTypes richTextLinks in
  let! _ := createTypes richText in
  let! _ := createTypes location in
  createTypes text.

(** *** Content types *)

(** The [forEach] over a content type's fields; [acc] is the object
    [fields] as filled so far, given by its own properties (their order
    is not kept). A missing [id] is the property ["undefined"]. *)
Fixpoint translateFields (l : list FieldDefinition)
    (acc : gmap string TypeDescriptor) : M (gmap string TypeDescriptor) :=
  match l with
  | [] => ret acc
  | field :: rest =>
      if disabled field || omitted field then translateFields rest acc
      else
        let! fieldType := translateFieldType field in
        translateFields rest (setProperty acc (interpolate (id field)) fieldType)
  end.

(** [{ id: { type: `ID!` }, sys: { type: `ContentfulInternalSys` }, ...fields }]:
    a translated field replaces a fixed one of the same name. *)
Definition objectFields (fields : gmap string TypeDescriptor)
  : gmap string FieldConfig :=
  ((fun d => Config d None) <$> fields)
  ∪ {[ "id" := Config (plain "ID!") None;
       "sys" := Config (plain "ContentfulInternalSys") None ]}.

(** [contentTypeItem.name || contentTypeItem.sys.id] *)
Definition displayName (contentTypeItem : ContentTypeItem) : string :=
  if truthy_opt (name contentTypeItem)
  then interpolate (name contentTypeItem)
  else sys_id contentTypeItem.

(** The [catch] block. The [console.log] of the stack is not part of the
    state modelled here. *)
Definition annotate (contentTypeItem : ContentTypeItem) (err : Exception)
  : Exception :=
  {| class := class err;
     message := "Unable to create schema for Contentful Content Type "
                +:+ displayName contentTypeItem +:+ ":" +:+ newline
                +:+ message err |}.

(** The body of the loop over the content types. [useNameForId] is
    whether [pluginConfig.get(`useNameForId`)] is truthy. *)
Definition generateContentType (useNameForId : bool)
    (contentTypeItem : ContentTypeItem) : M unit :=
  tryCatch
    (let! fields := translateFields (fields contentTypeItem) ∅ in
     let type :=
       if useNameForId then name contentTypeItem
       else Some (sys_id contentTypeItem) in
     createTypes
       (ObjectType (makeTypeName type None) (objectFields fields)
          ["ContentfulInternalReference"; "ContentfulEntry"; "Node"] true))
    (fun err => throw (annotate contentTypeItem err)).

Fixpoint generateContentTypes (useNameForId : bool)
    (contentTypeItems : list ContentTypeItem) : M unit :=
  match contentTypeItems with
  | [] => ret tt
  | contentTypeItem :: rest =>
      let! _ := generateContentType useNameForId contentTypeItem in
      generateContentTypes useNameForId rest
  end.

Definition generateSchema (useNameForId : bool)
    (contentTypeItems : list ContentTypeItem) : M unit :=
  let! _ := genericTypes in
  generateContentTypes useNameForId contentTypeItems.

(** The descriptor a field is translated to. The state has no part in
    it, so it is read off a run from the empty state. *)
Definition descriptorOf (field : FieldDefinition) : Completion TypeDescriptor :=
  (translateFieldType field emptyWorld).2.

(** What a request for the union of the content types [cts] does to the
    state: nothing when the name is registered, else the name is
    registered and the union declared. *)
Definition registerUnion (cts : list string) (w : World) : World :=
  let unionName :=
    unionNameOf (map (fun typeName => makeTypeName (Some typeName) (Some "")) cts) in
  if bool_decide (unionName ∈ unionsNameSet w) then w
  else {| unionsNameSet := {[ unionName ]} ∪ unionsNameSet w;
          declared :=
            declared w
            ++ [UnionType unionName
                  (map (fun typeName => makeTypeName (Some typeName) None) cts)] |}.

End Translation.

(** *** Notions the properties are stated with *)

(** The content types a link field is restricted to: the names of the
    first validation under [field.items.validations] that has a truthy
    [linkContentType], if there is one. *)
Definition linkContentTypes (field : FieldDefinition) : option (list string) :=
  validations ← items field ≫= validations;
  v ← List.find isLinkContentTypeValidation validations;
  l ← linkContentType v;
  Some (contentTypesOf l).

(** The element descriptor [res] of an array field as the array's own:
    its type in brackets, then the marker of a required field. *)
Definition arrayOf (isRequired : bool) (res : World * Completion TypeDescriptor)
  : World * Completion TypeDescriptor :=
  match res with
  | (w, Return d) =>
      let listType := "[" +:+ typeExpr d +:+ "]" in
      (w, Return {| typeExpr := if isRequired then listType +:+ "!" else listType;
                    extensions := extensions d |})
  | (w, Throw e) => (w, Throw e)
  end.

(** The names of the unions among the declared types. *)
Fixpoint unionNames (l : list TypeDef) : list string :=
  match l with
  | [] => []
  | UnionType n _ :: rest => n :: unionNames rest
  | _ :: rest => unionNames rest
  end.

(** The registry and the declarations agree: the registered names are the
    names of the declared unions, and no union is declared twice. *)
Definition registryOk (w : World) : Prop :=
  NoDup (unionNames (declared w))
  /\ forall n, n ∈ unionsNameSet w <-> In n (unionNames (declared w)).

Definition enabled (field : FieldDefinition) : bool :=
  negb (disabled field || omitted field).

(** The property of [fields] a field is stored under. *)
Definition fieldKey (field : FieldDefinition) : string := interpolate (id field).

(** [upperFirst] on a string of ASCII letters. *)
Definition upperFirst (s : string) : string :=
  match s with
  | EmptyString => EmptyString
  | String c rest =>
      let n := nat_of_ascii c in
      String (if (97 <=? n) && (n <=? 122) then ascii_of_nat (n - 32) else c) rest
  end.

(** Modelled from the spec: [makeTypeName] belongs to [./normalize], which
    is not among the sources; the specification only says that it turns a
    content type's name into its full type name and, with the empty
    prefix, into a compact one. The theorems are stated for an arbitrary
    [makeTypeName]; this instance (the prefix, by default
    [ContentfulContentType], followed by the capitalised name) serves to
    run the code on examples. *)
Definition exampleTypeName (typeName typePrefix : option string) : string :=
  match typePrefix with
  | None => "ContentfulContentType"
  | Some p => p
  end +:+ upperFirst (interpolate typeName).

(** The types [generateSchema] declares before the content types, in
    the order of the calls. *)
Definition fixedTypes : list TypeDef :=
  [ Sdl sdlInternalReference; Sdl sdlContentType; Sdl sdlInternalSys;
    Sdl sdlEntry; Sdl sdlAsset; richTextAssets; richTextEntries;
    richTextLinks; richText; location; text ].

(** The kinds that are keys of the primitive table. *)
Definition primitiveKinds : list string :=
  [ "Symbol"; "Text"; "Integer"; "Number"; "Date"; "Object"; "Boolean";
    "Location"; "RichText" ].

(** The fields that have a translation: a link; a field of a primitive
    kind; an array that has [items] which are links or have a translation
    themselves. *)
Fixpoint translatable (field : FieldDefinition) : bool :=
  if String.eqb (type field) "Array" then
    match items field with
    | None => false
    | Some fieldItems =>
        String.eqb (type fieldItems) "Link" || translatable fieldItems
    end
  else
    String.eqb (type field) "Link"
    || existsb (String.eqb (type field)) primitiveKinds.

(** Every enabled field of the list has a translation. *)
Definition fieldsTranslatable (l : list FieldDefinition) : bool :=
  forallb (fun field => negb (enabled field) || translatable field) l.

(** The ids of the enabled fields under which a property is made: all
    but [__proto__]. *)
Definition propertyKeys (l : list FieldDefinition) : list string :=
  List.filter (fun key => negb (String.eqb key "__proto__"))
    (map fieldKey (List.filter enabled l)).

(** The same field, required or not. *)
Definition withRequired (isRequired : bool) (field : FieldDefinition)
  : FieldDefinition :=
  {| id := id field; type := type field; required := isRequired;
     disabled := disabled field; omitted := omitted field;
     items := items field; linkType := linkType field;
     validations := validations field |}.


(** The state [w'] has everything the state [w] has: the declarations
    of [w] come first in it, and the names registered in [w] are
    registered. *)
Definition extends (w w' : World) : Prop :=
  (exists added, declared w' = declared w ++ added)
  /\ unionsNameSet w ⊆ unionsNameSet w'.

(** *** The resolvers of the rich-text links *)

(** [{ type, id }], an entry of what [getRichTextEntityLinks] returns. *)
Record EntityLink := mkEntityLink { entity_type : string; entity_id : string }.

(** What [getRichTextEntityLinks] returns: the links to entries and the
    links to assets. *)
Record EntityLinks := mkEntityLinks {
  Entry : list EntityLink;
  Asset : list EntityLink
}.

(** A node of the store as the resolver reads it: its own [id],
    [internal.owner], and [sys.id] and [sys.type] where it has a [sys]. *)
Record NodeSys := mkNodeSys { sysId : option string; sysType : option string }.

Record Node := mkNode {
  nodeId : string;
  owner : string;
  sys : option NodeSys
}.

Section Resolvers.

(** The rich-text document a resolver is given, and
    [getRichTextEntityLinks] of [@contentful/rich-text-links]. *)
Variable Source : Type.
Variable getRichTextEntityLinks : Source -> string -> EntityLinks.

(** [links[entityType]]: only the two properties exist. *)
Definition entityLinksOf (links : EntityLinks) (entityType : string)
  : option (list EntityLink) :=
  if String.eqb entityType "Entry" then Some (Entry links)
  else if String.eqb entityType "Asset" then Some (Asset links)
  else None.

(** [links.includes(id)] *)
Definition includes (links : list string) (i : string) : bool :=
  existsb (String.eqb i) links.

(** The test of the [filter]:
<<
node.internal.owner === `gatsby-source-contentful` &&
node?.sys?.id &&
node?.sys?.type === entityType &&
links.includes(node.sys.id)
>> *)
Definition isLinkedNode (entityType : string) (links : list string)
    (node : Node) : bool :=
  String.eqb (owner node) "gatsby-source-contentful"
  && match sys node with
     | None => false
     | Some nodeSys =>
         match sysId nodeSys with
         | None => false
         | Some i =>
             truthy i
             && match sysType nodeSys with
                | None => false
                | Some t => String.eqb t entityType
                end
             && includes links i
         end
     end.

(** What the runtime throws when [links[entityType]] is not an array
    of links. The wording is the engine's. *)
Definition mapOfUndefined : Exception :=
  mkException TypeError "Cannot read properties of undefined (reading 'map')".

(** [makeRichTextLinksResolver(nodeType, entityType)] applied to a source;
    [allNodes] is what [context.nodeModel.getAllNodes()] returns. *)
Definition makeRichTextLinksResolver (nodeType entityType : string)
    (source : Source) (allNodes : list Node) : Completion (list Node) :=
  match entityLinksOf (getRichTextEntityLinks source nodeType) entityType with
  | None => Throw mapOfUndefined
  | Some entityLinks =>
      let links := map entity_id entityLinks in
      Return (List.filter (isLinkedNode entityType links) allNodes)
  end.

End Resolvers.

End Schema.

(** ** Facts about the JavaScript string operations *)

Module JsFacts.
Import Js.

Lemma truthy_true (s : string) : truthy s = true <-> s <> "".
Proof. destruct s; simpl; split; congruence. Qed.

Lemma truthy_false (s : string) : truthy s = false <-> s = "".
Proof. destruct s; simpl; split; congruence. Qed.

Lemma append_nil_l (s : string) : "" +:+ s = s.
Proof. reflexivity. Qed.

Lemma append_cons (c : ascii) (s t : string) :
  String c s +:+ t = String c (s +:+ t).
Proof. reflexivity. Qed.

Lemma truthy_append_r (a b : string) : truthy b = true -> truthy (a +:+ b) = true.
Proof. destruct a; [rewrite append_nil_l | rewrite append_cons]; auto. Qed.

Lemma append_nil_r (s : string) : s +:+ "" = s.
Proof.
  induction s as [|c s IH]; [reflexivity |].
  now rewrite append_cons, IH.
Qed.

Lemma append_assoc (a b c : string) : (a +:+ b) +:+ c = a +:+ b +:+ c.
Proof.
  induction a as [|x a IH]; [reflexivity |].
  now rewrite !append_cons, IH.
Qed.

Lemma length_append (a b : string) :
  String.length (a +:+ b) = String.length a + String.length b.
Proof.
  induction a as [|x a IH]; [reflexivity |].
  rewrite append_cons. simpl. now rewrite IH.
Qed.

Lemma startsWith_append (p rest : string) : startsWith (p +:+ rest) p = true.
Proof.
  induction p as [|c p IH]; [reflexivity |].
  rewrite append_cons. simpl. now rewrite Ascii.eqb_refl.
Qed.

Lemma startsWith_inv (t p : string) :
  startsWith t p = true -> exists rest, t = p +:+ rest.
Proof.
  revert t. induction p as [|c p IH]; intros t H.
  - exists t. reflexivity.
  - destruct t as [|d t]; simpl in H; [discriminate |].
    destruct (Ascii.eqb c d) eqn:E; [| discriminate].
    apply Ascii.eqb_eq in E. subst d.
    destruct (IH _ H) as [rest ->]. exists rest. reflexivity.
Qed.

Lemma startsWith_refl (s : string) : startsWith s s = true.
Proof. rewrite <- (append_nil_r s) at 1. apply startsWith_append. Qed.

Lemma startsWith_trans (a b c : string) :
  startsWith b a = true -> startsWith c b = true -> startsWith c a = true.
Proof.
  intros Hab Hbc.
  destruct (startsWith_inv _ _ Hab) as [r1 ->].
  destruct (startsWith_inv _ _ Hbc) as [r2 ->].
  rewrite append_assoc. apply startsWith_append.
Qed.

Lemma startsWith_length (t p : string) :
  startsWith t p = true -> String.length p <= String.length t.
Proof.
  intros H. destruct (startsWith_inv _ _ H) as [rest ->].
  rewrite length_append. lia.
Qed.

(** Two prefixes of one string that have the same length are the same
    string. *)
Lemma startsWith_same_length (t p q : string) :
  startsWith t p = true -> startsWith t q = true ->
  String.length p = String.length q -> p = q.
Proof.
  revert t q. induction p as [|c p IH]; intros t q Hp Hq Hl.
  - destruct q; [reflexivity | discriminate].
  - destruct q as [|d q]; [discriminate |].
    destruct t as [|e t]; simpl in Hp, Hq; [discriminate |].
    destruct (Ascii.eqb c e) eqn:E1; [| discriminate].
    destruct (Ascii.eqb d e) eqn:E2; [| discriminate].
    apply Ascii.eqb_eq in E1, E2. subst c d.
    f_equal. apply (IH t); auto.
Qed.

Lemma setProperty_insert {V : Type} (obj : gmap string V) (key : string)
    (value : V) :
  key <> "__proto__" -> setProperty obj key value = <[key := value]> obj.
Proof.
  intros Hne. unfold setProperty. apply String.eqb_neq in Hne. now rewrite Hne.
Qed.

Lemma lookup_setProperty_ne {V : Type} (obj : gmap string V) (key key' : string)
    (value : V) :
  key <> key' -> setProperty obj key value !! key' = obj !! key'.
Proof.
  intros Hne. unfold setProperty.
  destruct (String.eqb key "__proto__"); [reflexivity |].
  now apply lookup_insert_ne.
Qed.

Lemma lookup_setProperty_proto {V : Type} (obj : gmap string V) (key : string)
    (value : V) :
  setProperty obj key value !! "__proto__" = obj !! "__proto__".
Proof.
  unfold setProperty. destruct (String.eqb_spec key "__proto__") as [-> | Hne];
    [reflexivity | now apply lookup_insert_ne].
Qed.

End JsFacts.

(** ** Facts about the cascaded context *)

Module CascadeFacts.
Import Js JsFacts Cascade.

(** Induction along a chain, from the root down. *)
Lemma Path_induction (P : Path -> Prop) :
  (forall k, P (mkPath k None)) ->
  (forall k p, P p -> P (mkPath k (Some p))) ->
  forall p, P p.
Proof.
  intros Hroot Hstep. fix IH 1.
  intros [k [p|]]; [apply Hstep, IH | apply Hroot].
Qed.

Lemma join_cons (sep s : string) (rest : list string) :
  rest <> [] -> join sep (s :: rest) = s +:+ sep +:+ join sep rest.
Proof. destruct rest; [congruence | reflexivity]. Qed.

Lemma join_snoc2 (sep a b : string) (l : list string) :
  join sep (l ++ [a; b]) = join sep (l ++ [a +:+ sep +:+ b]).
Proof.
  induction l as [|x l IH]; [reflexivity |].
  rewrite <- !app_comm_cons.
  rewrite !join_cons by (destruct l; discriminate).
  now rewrite IH.
Qed.

(** A falsy [currentPath] is as good as none. *)
Lemma getPath_defined_falsy (p : Path) :
  getPath_defined p (Some "") = getPath_defined p None.
Proof. destruct p as [k [q|]]; reflexivity. Qed.

(** Below a non-empty [currentPath] every key of the chain becomes a
    segment in front of it. *)
Lemma getPath_defined_truthy (p : Path) :
  forall cp, truthy cp = true ->
  getPath_defined p (Some cp) = join ":" (rev (chainKeys p) ++ [cp]).
Proof.
  induction p as [k | k p IH] using Path_induction; intros cp Hcp.
  - simpl. now rewrite Hcp.
  - cbn [getPath_defined key prev chainKeys]. rewrite Hcp.
    rewrite IH by (apply truthy_append_r, truthy_append_r, Hcp).
    cbn [rev]. rewrite <- app_assoc. cbn [app].
    now rewrite join_snoc2.
Qed.

Lemma getPath_defined_keys (p : Path) :
  getPath_defined p None = join ":" (rev (dropEmpty (chainKeys p))).
Proof.
  induction p as [k | k p IH] using Path_induction.
  - cbn. destruct (keyString k); reflexivity.
  - cbn [getPath_defined key prev chainKeys dropEmpty].
    destruct (truthy (keyString k)) eqn:Hk.
    + now rewrite getPath_defined_truthy.
    + apply truthy_false in Hk. rewrite Hk.
      now rewrite getPath_defined_falsy.
Qed.


(** *** The path of a chain *)

(** C3, as written, fails: for the node [b] below the root [a] the path is
    ["a:b"], while the keys joined leaf first read ["b:a"]. *)
Lemma getPath_not_leaf_first :
  getPath (Some (mkPath (KString "b") (Some (mkPath (KString "a") None)))) None
    = Return "a:b"
  /\ join ":" (chainKeys (mkPath (KString "b") (Some (mkPath (KString "a") None))))
    = "b:a".
Proof. split; reflexivity. Qed.

(** C3, amended: the path of a chain is its keys, each read as a string,
    joined with [":"] from the root's key on the left to the given node's
    key on the right; keys that are the empty string at the node's end of
    the chain leave no segment. When the node's own key is not the empty
    string, these are all the keys of the chain. *)
Theorem getPath_root_first (p : Path) :
  getPath (Some p) None = Return (join ":" (rev (dropEmpty (chainKeys p))))
  /\ (keyString (key p) <> "" ->
      getPath (Some p) None = Return (join ":" (rev (chainKeys p)))).
Proof.
  split.
  - cbn [getPath]. now rewrite getPath_defined_keys.
  - intros Hk. cbn [getPath]. rewrite getPath_defined_keys.
    destruct p as [k q]. cbn [chainKeys key dropEmpty] in *.
    apply truthy_true in Hk. now rewrite Hk.
Qed.

(** *** Failure of the path computation *)



(** C3 at the chain of the counterexample. *)
Lemma getPath_root_first_witness :
  getPath (Some (mkPath (KString "b") (Some (mkPath (KString "a") None)))) None
  = Return (join ":" (rev ["b"; "a"])).
Proof.
  apply (proj2 (getPath_root_first
                  (mkPath (KString "b") (Some (mkPath (KString "a") None))))).
  simpl. discriminate.
Defined.

(** *** The longest prefix *)

Lemma Map_get_key {T : Type} (m : StringMap T) (k : string) :
  In k (Map_keys m) -> exists v, Map_get m k = Some v.
Proof.
  induction m as [|[k' v'] m IH]; intros Hin; [destruct Hin |].
  cbn [Map_get]. destruct (String.eqb k' k) eqn:E; [eauto |].
  destruct Hin as [Heq | Hin]; [| auto].
  cbn in Heq. subst k'. now rewrite String.eqb_refl in E.
Qed.

(** The state of the loop of [findLongestPrefix]: [match_] answers the
    search among the keys [seen] so far and [matchLength] is its length. *)
Lemma findLongestPrefix_loop_spec (target : string) (prefixes : list string) :
  forall seen match_ matchLength,
  longestPrefix target seen match_ ->
  matchLength = from_option String.length 0 match_ ->
  longestPrefix target (seen ++ prefixes)
    (findLongestPrefix_loop target prefixes match_ matchLength).
Proof.
  induction prefixes as [|prefix rest IH]; intros seen m n Hm Hn.
  - now rewrite app_nil_r.
  - cbn [findLongestPrefix_loop].
    replace (seen ++ prefix :: rest) with ((seen ++ [prefix]) ++ rest)
      by now rewrite <- app_assoc.
    destruct (startsWith target prefix) eqn:Hs.
    + destruct (Nat.ltb_spec n (String.length prefix)) as [Hlt | Hge].
      * apply IH; [| reflexivity].
        cbn. repeat split.
        -- apply in_or_app. right. now left.
        -- intros ->. cbn in Hlt. lia.
        -- assumption.
        -- intros k' Hin Hk'. apply in_app_or in Hin.
           destruct Hin as [Hin | [<- | []]]; [| lia].
           destruct m as [k|]; cbn in Hm, Hn.
           ++ destruct Hm as (_ & _ & _ & Hmax). specialize (Hmax _ Hin Hk'). lia.
           ++ rewrite (Hm _ Hin Hk'). cbn. lia.
      * apply IH; [| assumption].
        destruct m as [k|]; cbn in Hm, Hn |- *.
        -- destruct Hm as (Hin & Hne & Hk & Hmax). repeat split; auto.
           ++ apply in_or_app. now left.
           ++ intros k' Hin' Hk'. apply in_app_or in Hin'.
              destruct Hin' as [Hin' | [<- | []]]; [auto | lia].
        -- intros k Hin Hk. apply in_app_or in Hin.
           destruct Hin as [Hin | [<- | []]]; [auto |].
           subst n. destruct prefix; [reflexivity | cbn in Hge; lia].
    + apply IH; [| assumption].
      destruct m as [k|]; cbn in Hm |- *.
      * destruct Hm as (Hin & Hne & Hk & Hmax). repeat split; auto.
        -- apply in_or_app. now left.
        -- intros k' Hin' Hk'. apply in_app_or in Hin'.
           destruct Hin' as [Hin' | [<- | []]]; [auto | congruence].
      * intros k Hin Hk. apply in_app_or in Hin.
        destruct Hin as [Hin | [<- | []]]; [auto | congruence].
Qed.

Lemma findLongestPrefix_spec (target : string) (prefixes : list string) :
  longestPrefix target prefixes (findLongestPrefix target prefixes).
Proof.
  apply (findLongestPrefix_loop_spec target prefixes [] None 0);
    [intros k [] | reflexivity].
Qed.

(** C2, as written, fails when the empty string is a stored key: after a
    [set] on a root node whose key is the empty string, that key is a
    prefix of the path ["a"] (and the longest stored one) and 1 is stored
    under it, yet [get] answers the default value 0. *)
Lemma get_skips_empty_key :
  set {| cascadeMap := []; defaultValue := Some 0 |}
      (mkInfo (Some (mkPath (KString "") None))) 1
    = Return {| cascadeMap := [("", 1)]; defaultValue := Some 0 |}
  /\ startsWith "a" "" = true
  /\ Map_get [("", 1)] "" = Some 1
  /\ get {| cascadeMap := [("", 1)]; defaultValue := Some 0 |}
         (mkInfo (Some (mkPath (KString "a") None)))
    = Return (Some 0).
Proof. repeat split. Qed.

(** C2, amended: when the path of the node is [target], [get] returns
    the value stored under the non-empty stored key that is a prefix of
    [target] and is the longest stored key that is one; when no non-empty
    stored key is a prefix of [target], [get] returns the default value
    and does not throw. *)
Theorem get_longest_prefix {T : Type} (ctx : CascadedContext T)
    (info : Info) (target : string) :
  getPath (path info) None = Return target ->
  (forall k,
     In k (Map_keys (cascadeMap ctx)) -> k <> "" ->
     startsWith target k = true ->
     (forall k', In k' (Map_keys (cascadeMap ctx)) ->
                 startsWith target k' = true ->
                 String.length k' <= String.length k) ->
     exists v, Map_get (cascadeMap ctx) k = Some v
               /\ get ctx info = Return (Some v))
  /\ ((forall k, In k (Map_keys (cascadeMap ctx)) ->
                 startsWith target k = true -> k = "") ->
      get ctx info = Return (defaultValue ctx)).
Proof.
  intros Hpath. unfold get. rewrite Hpath.
  pose proof (findLongestPrefix_spec target (Map_keys (cascadeMap ctx))) as Hbest.
  destruct (findLongestPrefix target (Map_keys (cascadeMap ctx))) as [found|];
    cbn in Hbest; split.
  - destruct Hbest as (Hin & Hne & Hfound & Hmax).
    intros k Hk Hkne Hpre Hkmax.
    assert (found = k) as ->.
    { apply (startsWith_same_length target); auto.
      apply Nat.le_antisymm; auto. }
    apply truthy_true in Hkne. rewrite Hkne.
    destruct (Map_get_key _ _ Hk) as [v Hv]. exists v. now rewrite Hv.
  - destruct Hbest as (Hin & Hne & Hfound & _). intros Hnone.
    destruct (Hne (Hnone _ Hin Hfound)).
  - intros k Hk Hkne Hpre _. destruct (Hkne (Hbest _ Hk Hpre)).
  - reflexivity.
Qed.

(** C2 on the example of the specification: with 1 stored at ["a:b"] and
    2 at ["a:b:c"], the node at ["a:b:c:d"] reads 2, the node at
    ["a:b:x"] reads 1 and the node at ["z"] reads the default. *)
Lemma get_longest_prefix_witness :
  get {| cascadeMap := [("a:b", 1); ("a:b:c", 2)]; defaultValue := Some 0 |}
      (mkInfo (Some (mkPath (KString "d") (Some (mkPath (KString "c")
        (Some (mkPath (KString "b") (Some (mkPath (KString "a") None)))))))))
    = Return (Some 2)
  /\ get {| cascadeMap := [("a:b", 1); ("a:b:c", 2)]; defaultValue := Some 0 |}
      (mkInfo (Some (mkPath (KString "x")
        (Some (mkPath (KString "b") (Some (mkPath (KString "a") None)))))))
    = Return (Some 1)
  /\ get {| cascadeMap := [("a:b", 1); ("a:b:c", 2)]; defaultValue := Some 0 |}
      (mkInfo (Some (mkPath (KString "z") None)))
    = Return (Some 0).
Proof.
  split; [| split].
  - destruct (proj1 (get_longest_prefix
        {| cascadeMap := [("a:b", 1); ("a:b:c", 2)]; defaultValue := Some 0 |}
        (mkInfo (Some (mkPath (KString "d") (Some (mkPath (KString "c")
          (Some (mkPath (KString "b") (Some (mkPath (KString "a") None)))))))))
        "a:b:c:d" eq_refl) "a:b:c") as [v [Hv Hget]].
    + simpl. auto.
    + discriminate.
    + reflexivity.
    + intros k' [<- | [<- | []]] _; simpl; lia.
    + rewrite Hget. simpl in Hv. now rewrite <- Hv.
  - destruct (proj1 (get_longest_prefix
        {| cascadeMap := [("a:b", 1); ("a:b:c", 2)]; defaultValue := Some 0 |}
        (mkInfo (Some (mkPath (KString "x")
          (Some (mkPath (KString "b") (Some (mkPath (KString "a") None)))))))
        "a:b:x" eq_refl) "a:b") as [v [Hv Hget]].
    + simpl. auto.
    + discriminate.
    + reflexivity.
    + intros k' [<- | [<- | []]] Hk'; simpl; [lia | discriminate Hk'].
    + rewrite Hget. simpl in Hv. now rewrite <- Hv.
  - apply (proj2 (get_longest_prefix
        {| cascadeMap := [("a:b", 1); ("a:b:c", 2)]; defaultValue := Some 0 |}
        (mkInfo (Some (mkPath (KString "z") None))) "z" eq_refl)).
    intros k [<- | [<- | []]] Hk; discriminate Hk.
Defined.

(** The two sets of the example do build that context. *)
Lemma set_twice_example :
  set {| cascadeMap := []; defaultValue := Some 0 |}
      (mkInfo (Some (mkPath (KString "b") (Some (mkPath (KString "a") None))))) 1
    = Return {| cascadeMap := [("a:b", 1)]; defaultValue := Some 0 |}
  /\ set {| cascadeMap := [("a:b", 1)]; defaultValue := Some 0 |}
      (mkInfo (Some (mkPath (KString "c")
        (Some (mkPath (KString "b") (Some (mkPath (KString "a") None))))))) 2
    = Return {| cascadeMap := [("a:b", 1); ("a:b:c", 2)]; defaultValue := Some 0 |}.
Proof. split; reflexivity. Qed.

(** *** Prefixes and ancestors *)

Lemma startsWith_append_both (x t p : string) :
  startsWith (x +:+ t) (x +:+ p) = startsWith t p.
Proof.
  induction x as [|c x IH]; [reflexivity |].
  rewrite !append_cons. cbn [startsWith]. now rewrite Ascii.eqb_refl.
Qed.

Lemma getPath_defined_mono (p : Path) :
  forall c1 c2, truthy c1 = true -> startsWith c2 c1 = true ->
  startsWith (getPath_defined p (Some c2)) (getPath_defined p (Some c1)) = true.
Proof.
  induction p as [k | k p IH] using Path_induction; intros c1 c2 H1 H12.
  - assert (truthy c2 = true) as H2
      by (destruct c1; [discriminate | destruct c2; [discriminate | reflexivity]]).
    cbn. rewrite H1, H2. now rewrite !startsWith_append_both.
  - assert (truthy c2 = true) as H2
      by (destruct c1; [discriminate | destruct c2; [discriminate | reflexivity]]).
    cbn [getPath_defined key prev]. rewrite H1, H2.
    apply IH; [now apply truthy_append_r, truthy_append_r |].
    now rewrite !startsWith_append_both.
Qed.

Lemma getPath_defined_extends (p : Path) :
  forall cp, startsWith (getPath_defined p cp) (getPath_defined p None) = true.
Proof.
  induction p as [k | k p IH] using Path_induction; intros [cp|];
    try apply startsWith_refl.
  - cbn. destruct (truthy cp); [apply startsWith_append | apply startsWith_refl].
  - cbn [getPath_defined key prev].
    destruct (truthy cp) eqn:Hcp; [| apply startsWith_refl].
    destruct (truthy (keyString k)) eqn:Hk.
    + apply getPath_defined_mono; [assumption | apply startsWith_append].
    + apply truthy_false in Hk. rewrite Hk at 2.
      rewrite getPath_defined_falsy. apply IH.
Qed.

Lemma getPath_defined_through (a b : Path) :
  ancestorOrSelf a b ->
  forall cp, exists cp', getPath_defined b cp = getPath_defined a cp'.
Proof.
  induction 1 as [| b p Hprev Hanc IH]; intros cp; [eauto |].
  destruct b as [k q]. cbn in Hprev. subst q.
  cbn [getPath_defined key prev]. apply IH.
Qed.

Lemma getPath_defined_ancestor (a b : Path) :
  ancestorOrSelf a b ->
  startsWith (getPath_defined b None) (getPath_defined a None) = true.
Proof.
  intros Hanc. destruct (getPath_defined_through a b Hanc None) as [cp ->].
  apply getPath_defined_extends.
Qed.

(** One half of C5 holds: the path of a node is a prefix of the path of
    each of its descendants, whatever the keys are. *)
Theorem ancestor_path_is_prefix (a b : Path) :
  ancestorOrSelf a b ->
  exists pa pb,
    getPath (Some a) None = Return pa
    /\ getPath (Some b) None = Return pb
    /\ startsWith pb pa = true.
Proof.
  intros Hanc. exists (getPath_defined a None), (getPath_defined b None).
  repeat split. now apply getPath_defined_ancestor.
Qed.

(** The field [items] and its tenth element. *)
Lemma ancestor_path_is_prefix_witness :
  exists pa pb,
    getPath (Some (mkPath (KString "items") None)) None = Return pa
    /\ getPath (Some (mkPath (KNumber 10) (Some (mkPath (KString "items") None))))
         None = Return pb
    /\ startsWith pb pa = true.
Proof.
  apply (ancestor_path_is_prefix
           (mkPath (KString "items") None)
           (mkPath (KNumber 10) (Some (mkPath (KString "items") None)))).
  apply (ancestor_prev _ _ (mkPath (KString "items") None)).
  - reflexivity.
  - apply ancestor_self.
Defined.

(** *** Reading back what was set *)

Lemma Map_get_set {T : Type} (m : StringMap T) (k : string) (v : T) :
  Map_get (Map_set m k v) k = Some v.
Proof.
  induction m as [|[k' v'] m IH]; cbn [Map_set Map_get].
  - now rewrite String.eqb_refl.
  - destruct (String.eqb k' k) eqn:E; cbn [Map_get]; rewrite E; [reflexivity | exact IH].
Qed.

Lemma Map_keys_set {T : Type} (m : StringMap T) (k : string) (v : T) :
  In k (Map_keys (Map_set m k v)).
Proof.
  induction m as [|[k' v'] m IH]; cbn [Map_set]; [now left |].
  destruct (String.eqb_spec k' k) as [-> | Hne]; [now left | right; exact IH].
Qed.

(** [get] right after [set] on the same node returns the value set,
    provided the path of the node is not the empty string. *)
Theorem get_after_set {T : Type} (ctx : CascadedContext T) (info : Info)
    (value : T) (target : string) :
  getPath (path info) None = Return target ->
  target <> "" ->
  exists ctx',
    set ctx info value = Return ctx'
    /\ get ctx' info = Return (Some value).
Proof.
  intros Hpath Hne. unfold set, get. rewrite Hpath.
  eexists. split; [reflexivity |]. cbn [cascadeMap defaultValue].
  pose proof (findLongestPrefix_spec target
                (Map_keys (Map_set (cascadeMap ctx) target value))) as Hbest.
  pose proof (Map_keys_set (cascadeMap ctx) target value) as Hkey.
  destruct (findLongestPrefix _ _) as [found|]; cbn in Hbest.
  - destruct Hbest as (Hin & Hfne & Hfound & Hmax).
    assert (found = target) as ->.
    { apply (startsWith_same_length target); auto using startsWith_refl.
      apply Nat.le_antisymm;
        [now apply startsWith_length | apply Hmax; auto using startsWith_refl]. }
    apply truthy_true in Hne. rewrite Hne. now rewrite Map_get_set.
  - destruct (Hne (Hbest _ Hkey (startsWith_refl target))).
Qed.

(** The node [b] below the root [a]. *)
Lemma get_after_set_witness :
  exists ctx',
    set {| cascadeMap := [("a", 1)]; defaultValue := Some 0 |}
        (mkInfo (Some (mkPath (KString "b") (Some (mkPath (KString "a") None)))))
        2
    = Return ctx'
    /\ get ctx'
         (mkInfo (Some (mkPath (KString "b") (Some (mkPath (KString "a") None)))))
       = Return (Some 2).
Proof.
  apply (get_after_set {| cascadeMap := [("a", 1)]; defaultValue := Some 0 |}
           (mkInfo (Some (mkPath (KString "b") (Some (mkPath (KString "a") None)))))
           2 "a:b").
  - reflexivity.
  - discriminate.
Defined.

(** C5 fails in the other direction. The list items 1 and 10 of one
    field are siblings, yet ["items:1"] is a prefix of ["items:10"], and a
    value set on item 1 of a fresh context is what [get] returns for
    item 10. *)
Lemma sibling_path_is_prefix :
  getPath (Some (mkPath (KNumber 1) (Some (mkPath (KString "items") None)))) None
    = Return "items:1"
  /\ getPath (Some (mkPath (KNumber 10) (Some (mkPath (KString "items") None)))) None
    = Return "items:10"
  /\ startsWith "items:10" "items:1" = true
  /\ ~ ancestorOrSelf
         (mkPath (KNumber 1) (Some (mkPath (KString "items") None)))
         (mkPath (KNumber 10) (Some (mkPath (KString "items") None)))
  /\ (forall (T : Type) (value : T),
        set new (mkInfo (Some (mkPath (KNumber 1)
                                 (Some (mkPath (KString "items") None))))) value
          = Return {| cascadeMap := [("items:1", value)]; defaultValue := None |}
        /\ get {| cascadeMap := [("items:1", value)]; defaultValue := None |}
             (mkInfo (Some (mkPath (KNumber 10)
                              (Some (mkPath (KString "items") None)))))
          = Return (Some value)).
Proof.
  repeat split.
  intros Hanc. inversion Hanc as [| b p Hprev Hanc' Hb]; subst.
  cbn in Hprev. injection Hprev as <-.
  inversion Hanc' as [| b p Hprev' _ Hb]; subst.
  discriminate Hprev'.
Qed.

(** *** What the search depends on *)

Lemma longestPrefix_unique (target : string) (l l' : list string)
    (r r' : option string) :
  longestPrefix target l r ->
  longestPrefix target l' r' ->
  (forall k, k <> "" -> startsWith target k = true -> (In k l <-> In k l')) ->
  r = r'.
Proof.
  intros Hr Hr' Hsame.
  destruct r as [k|], r' as [k'|]; cbn in Hr, Hr'.
  - destruct Hr as (Hin & Hne & Hpre & Hmax).
    destruct Hr' as (Hin' & Hne' & Hpre' & Hmax').
    f_equal. apply (startsWith_same_length target); auto.
    apply Nat.le_antisymm.
    + apply Hmax'; [apply (proj1 (Hsame k Hne Hpre) Hin) | assumption].
    + apply Hmax; [apply (proj2 (Hsame k' Hne' Hpre') Hin') | assumption].
  - destruct Hr as (Hin & Hne & Hpre & _).
    exfalso. apply Hne.
    apply Hr'; [apply (proj1 (Hsame k Hne Hpre) Hin) | assumption].
  - destruct Hr' as (Hin' & Hne' & Hpre' & _).
    exfalso. apply Hne'.
    apply Hr; [apply (proj2 (Hsame k' Hne' Hpre') Hin') | assumption].
  - reflexivity.
Qed.

(** The answer of [findLongestPrefix] depends on which strings are among
    the prefixes offered, not on their order or on repetitions. *)
Theorem findLongestPrefix_same_candidates (target : string)
    (prefixes prefixes' : list string) :
  (forall k, In k prefixes <-> In k prefixes') ->
  findLongestPrefix target prefixes = findLongestPrefix target prefixes'.
Proof.
  intros Hsame.
  apply (longestPrefix_unique target prefixes prefixes');
    auto using findLongestPrefix_spec.
Qed.

(** The keys of the example, in the other order and with one repeated. *)
Lemma findLongestPrefix_same_candidates_witness :
  findLongestPrefix "a:b:c:d" ["a:b"; "a:b:c"]
  = findLongestPrefix "a:b:c:d" ["a:b:c"; "a:b"; "a:b:c"].
Proof.
  apply (findLongestPrefix_same_candidates "a:b:c:d"
           ["a:b"; "a:b:c"] ["a:b:c"; "a:b"; "a:b:c"]).
  intros k. simpl. tauto.
Defined.

(** *** The path of a child *)

Lemma join_snoc (sep x : string) (l : list string) :
  l <> [] -> join sep (l ++ [x]) = join sep l +:+ sep +:+ x.
Proof.
  induction l as [|a l IH]; intros Hne; [congruence |].
  destruct l as [|b l]; [reflexivity |].
  rewrite <- app_comm_cons.
  rewrite (join_cons sep a ((b :: l) ++ [x])) by discriminate.
  rewrite (join_cons sep a (b :: l)) by discriminate.
  rewrite IH by discriminate. now rewrite !append_assoc.
Qed.

(** When neither the key of a node nor the key of its parent is the
    empty string, the path of the node is the path of the parent, a colon
    and the key of the node. *)
Theorem getPath_child (k : Key) (parent : Path) :
  keyString k <> "" ->
  keyString (key parent) <> "" ->
  exists parentPath,
    getPath (Some parent) None = Return parentPath
    /\ getPath (Some (mkPath k (Some parent))) None
       = Return (parentPath +:+ ":" +:+ keyString k).
Proof.
  intros Hk Hp. exists (getPath_defined parent None).
  split; [reflexivity |]. cbn [getPath getPath_defined key prev]. f_equal.
  apply truthy_true in Hk, Hp.
  rewrite (getPath_defined_truthy parent _ Hk), getPath_defined_keys.
  destruct parent as [kp q]. cbn [chainKeys key dropEmpty] in *. rewrite Hp.
  apply join_snoc. cbn [rev]. now destruct (rev _).
Qed.

(** The tenth item of the field [items]. *)
Lemma getPath_child_witness :
  exists parentPath,
    getPath (Some (mkPath (KString "items") (Some (mkPath (KString "page") None))))
      None = Return parentPath
    /\ getPath (Some (mkPath (KNumber 10)
         (Some (mkPath (KString "items") (Some (mkPath (KString "page") None))))))
         None
       = Return (parentPath +:+ ":" +:+ "10").
Proof.
  apply (getPath_child (KNumber 10)
           (mkPath (KString "items") (Some (mkPath (KString "page") None))));
    simpl; discriminate.
Defined.

(** *** What a write changes *)

Lemma Map_get_set_other {T : Type} (m : StringMap T) (k k' : string) (v : T) :
  k' <> k -> Map_get (Map_set m k v) k' = Map_get m k'.
Proof.
  intros Hne. induction m as [|[k0 v0] m IH]; cbn [Map_set Map_get].
  - destruct (String.eqb_spec k k'); [congruence | reflexivity].
  - destruct (String.eqb_spec k0 k) as [-> | Hk0]; cbn [Map_get].
    + destruct (String.eqb_spec k k'); [congruence | reflexivity].
    + destruct (String.eqb k0 k'); [reflexivity | exact IH].
Qed.

Lemma Map_keys_set_iff {T : Type} (m : StringMap T) (k k' : string) (v : T) :
  In k' (Map_keys (Map_set m k v)) <-> k' = k \/ In k' (Map_keys m).
Proof.
  induction m as [|[k0 v0] m IH]; cbn [Map_set].
  - cbn. intuition congruence.
  - destruct (String.eqb_spec k0 k) as [-> | Hk0]; cbn [Map_keys map fst In].
    + intuition congruence.
    + fold (Map_keys (Map_set m k v)). fold (Map_keys m). rewrite IH. tauto.
Qed.

Lemma Map_set_set {T : Type} (m : StringMap T) (k : string) (v1 v2 : T) :
  Map_set (Map_set m k v1) k v2 = Map_set m k v2.
Proof.
  induction m as [|[k0 v0] m IH]; cbn [Map_set].
  - now rewrite String.eqb_refl.
  - destruct (String.eqb k0 k) eqn:E; cbn [Map_set]; rewrite E;
      [reflexivity | now rewrite IH].
Qed.

(** [get] from the key the search finds. *)
Lemma get_found {T : Type} (ctx : CascadedContext T) (info : Info)
    (target k : string) :
  getPath (path info) None = Return target ->
  In k (Map_keys (cascadeMap ctx)) -> k <> "" ->
  startsWith target k = true ->
  (forall k', In k' (Map_keys (cascadeMap ctx)) ->
              startsWith target k' = true ->
              String.length k' <= String.length k) ->
  get ctx info = Return (Map_get (cascadeMap ctx) k).
Proof.
  intros Hpath Hk Hkne Hpre Hkmax. unfold get. rewrite Hpath.
  assert (findLongestPrefix target (Map_keys (cascadeMap ctx)) = Some k) as ->.
  { apply (longestPrefix_unique target (Map_keys (cascadeMap ctx))
             (Map_keys (cascadeMap ctx))); [apply findLongestPrefix_spec | | tauto].
    cbn. auto. }
  apply truthy_true in Hkne. now rewrite Hkne.
Qed.

(** A [set] on one node leaves [get] on another node as it was, unless
    the path of the first is a prefix of the path of the second. *)
Theorem set_leaves_other_paths {T : Type} (ctx : CascadedContext T)
    (written read : Info) (value : T) (writtenPath readPath : string) :
  getPath (path written) None = Return writtenPath ->
  getPath (path read) None = Return readPath ->
  startsWith readPath writtenPath = false ->
  exists ctx',
    set ctx written value = Return ctx'
    /\ get ctx' read = get ctx read.
Proof.
  intros Hw Hr Hnot. unfold set. rewrite Hw. eexists. split; [reflexivity |].
  unfold get. rewrite Hr. cbn [cascadeMap defaultValue].
  assert (findLongestPrefix readPath
            (Map_keys (Map_set (cascadeMap ctx) writtenPath value))
          = findLongestPrefix readPath (Map_keys (cascadeMap ctx))) as ->.
  { apply (longestPrefix_unique readPath
             (Map_keys (Map_set (cascadeMap ctx) writtenPath value))
             (Map_keys (cascadeMap ctx))); try apply findLongestPrefix_spec.
    intros k _ Hk. rewrite Map_keys_set_iff.
    split; [intros [-> | Hin]; [congruence | assumption] | now right]. }
  pose proof (findLongestPrefix_spec readPath (Map_keys (cascadeMap ctx))) as Hbest.
  destruct (findLongestPrefix readPath (Map_keys (cascadeMap ctx))) as [k|];
    [| reflexivity].
  destruct Hbest as (_ & _ & Hk & _).
  destruct (truthy k); [| reflexivity].
  rewrite Map_get_set_other; [reflexivity | intros ->; congruence].
Qed.

(** A write below [a:x] and a read below [a:b]. *)
Lemma set_leaves_other_paths_witness :
  exists ctx',
    set {| cascadeMap := [("a", 1)]; defaultValue := Some 0 |}
        (mkInfo (Some (mkPath (KString "x") (Some (mkPath (KString "a") None)))))
        2
    = Return ctx'
    /\ get ctx'
         (mkInfo (Some (mkPath (KString "b") (Some (mkPath (KString "a") None)))))
       = get {| cascadeMap := [("a", 1)]; defaultValue := Some 0 |}
           (mkInfo (Some (mkPath (KString "b") (Some (mkPath (KString "a") None))))).
Proof.
  apply (set_leaves_other_paths
           {| cascadeMap := [("a", 1)]; defaultValue := Some 0 |}
           (mkInfo (Some (mkPath (KString "x") (Some (mkPath (KString "a") None)))))
           (mkInfo (Some (mkPath (KString "b") (Some (mkPath (KString "a") None)))))
           2 "a:x" "a:b"); reflexivity.
Defined.

(** A value set on a node is what [get] returns for every node below it,
    as long as no stored key that is a prefix of that node's path is
    longer than the path of the node written (and that path is not the
    empty string). *)
Theorem get_inherits_from_ancestor {T : Type} (ctx : CascadedContext T)
    (a b : Path) (value : T) (pathA pathB : string) :
  ancestorOrSelf a b ->
  getPath (Some a) None = Return pathA ->
  getPath (Some b) None = Return pathB ->
  pathA <> "" ->
  (forall k, In k (Map_keys (cascadeMap ctx)) ->
             startsWith pathB k = true ->
             String.length k <= String.length pathA) ->
  exists ctx',
    set ctx (mkInfo (Some a)) value = Return ctx'
    /\ get ctx' (mkInfo (Some b)) = Return (Some value).
Proof.
  intros Hanc Ha Hb Hne Hmax. unfold set. cbn [path]. rewrite Ha.
  eexists. split; [reflexivity |].
  injection Ha as <-. injection Hb as <-.
  rewrite (get_found _ (mkInfo (Some b)) (getPath_defined b None)
             (getPath_defined a None)); cbn [cascadeMap].
  - now rewrite Map_get_set.
  - reflexivity.
  - apply Map_keys_set.
  - assumption.
  - now apply getPath_defined_ancestor.
  - intros k' Hin Hpre. apply Map_keys_set_iff in Hin.
    destruct Hin as [-> | Hin]; [lia | now apply Hmax].
Qed.

(** The value set at [a:b] is read at [a:b:c:d], past the shorter key
    [a]. *)
Lemma get_inherits_from_ancestor_witness :
  exists ctx',
    set {| cascadeMap := [("a", 1)]; defaultValue := Some 0 |}
        (mkInfo (Some (mkPath (KString "b") (Some (mkPath (KString "a") None)))))
        2
    = Return ctx'
    /\ get ctx'
         (mkInfo (Some (mkPath (KString "d") (Some (mkPath (KString "c")
            (Some (mkPath (KString "b") (Some (mkPath (KString "a") None)))))))))
       = Return (Some 2).
Proof.
  apply (get_inherits_from_ancestor
           {| cascadeMap := [("a", 1)]; defaultValue := Some 0 |}
           (mkPath (KString "b") (Some (mkPath (KString "a") None)))
           (mkPath (KString "d") (Some (mkPath (KString "c")
              (Some (mkPath (KString "b") (Some (mkPath (KString "a") None)))))))
           2 "a:b" "a:b:c:d").
  - apply (ancestor_prev _ _ (mkPath (KString "c")
              (Some (mkPath (KString "b") (Some (mkPath (KString "a") None)))))).
    + reflexivity.
    + apply (ancestor_prev _ _
               (mkPath (KString "b") (Some (mkPath (KString "a") None)))).
      * reflexivity.
      * apply ancestor_self.
  - reflexivity.
  - reflexivity.
  - discriminate.
  - intros k [<- | []] _. simpl. lia.
Defined.

(** Two writes on one node are as good as the second alone. *)
Theorem set_twice_is_last {T : Type} (ctx ctx1 : CascadedContext T)
    (info : Info) (first second : T) :
  set ctx info first = Return ctx1 ->
  set ctx1 info second = set ctx info second.
Proof.
  unfold set. destruct (getPath (path info) None) as [p|e]; [| discriminate].
  intros H. injection H as <-. cbn [cascadeMap defaultValue].
  now rewrite Map_set_set.
Qed.

(** The node [b] below [a], written twice. *)
Lemma set_twice_is_last_witness :
  set {| cascadeMap := [("a:b", 1)]; defaultValue := Some 0 |}
      (mkInfo (Some (mkPath (KString "b") (Some (mkPath (KString "a") None)))))
      2
  = set {| cascadeMap := []; defaultValue := Some 0 |}
      (mkInfo (Some (mkPath (KString "b") (Some (mkPath (KString "a") None)))))
      2.
Proof.
  apply (set_twice_is_last
           {| cascadeMap := []; defaultValue := Some 0 |}
           {| cascadeMap := [("a:b", 1)]; defaultValue := Some 0 |}
           (mkInfo (Some (mkPath (KString "b") (Some (mkPath (KString "a") None)))))
           1 2).
  reflexivity.
Defined.

(** *** The reverse check *)

Lemma Map_set_entries {T : Type} (m : StringMap T) (k : string) (v : T) :
  forall entry, In entry (Map_set m k v) -> entry.2 = v \/ In entry m.
Proof.
  induction m as [|[k0 v0] m IH]; cbn [Map_set]; intros entry Hin.
  - destruct Hin as [<- | []]. now left.
  - destruct (String.eqb k0 k); destruct Hin as [<- | Hin].
    + now left.
    + right. now right.
    + right. now left.
    + destruct (IH _ Hin); [now left | right; now right].
Qed.

Lemma Map_set_stores {T : Type} (m : StringMap T) (k : string) (v : T) :
  exists k', In (k', v) (Map_set m k v).
Proof.
  induction m as [|[k0 v0] m IH]; cbn [Map_set].
  - exists k. now left.
  - destruct (String.eqb k0 k).
    + exists k0. now left.
    + destruct IH as [k' Hin]. exists k'. now right.
Qed.

(** After [set] of a value that is strictly equal to itself, [has] finds
    it; and [has] finds no value different from it that it did not find
    before. *)
Theorem has_after_set {T : Type} (strictEquals : T -> T -> bool)
    (ctx : CascadedContext T) (info : Info) (value : T) (target : string) :
  getPath (path info) None = Return target ->
  strictEquals value value = true ->
  exists ctx',
    set ctx info value = Return ctx'
    /\ has strictEquals ctx' value = true
    /\ forall other,
         strictEquals value other = false ->
         has strictEquals ctx' other = true ->
         has strictEquals ctx other = true.
Proof.
  intros Hpath Hrefl. unfold set. rewrite Hpath. eexists.
  split; [reflexivity |]. unfold has. cbn [cascadeMap]. split.
  - apply existsb_exists.
    destruct (Map_set_stores (cascadeMap ctx) target value) as [k Hin].
    exists (k, value). now split.
  - intros other Hother Hhas. apply existsb_exists in Hhas.
    destruct Hhas as (entry & Hin & Heq). apply existsb_exists.
    destruct (Map_set_entries _ _ _ _ Hin) as [Hv | Hold].
    + rewrite Hv in Heq. congruence.
    + now exists entry.
Qed.

(** Numbers compared with [Nat.eqb]. *)
Lemma has_after_set_witness :
  exists ctx',
    set {| cascadeMap := [("a", 1)]; defaultValue := Some 0 |}
        (mkInfo (Some (mkPath (KString "b") (Some (mkPath (KString "a") None)))))
        2
    = Return ctx'
    /\ has Nat.eqb ctx' 2 = true
    /\ forall other,
         Nat.eqb 2 other = false ->
         has Nat.eqb ctx' other = true ->
         has Nat.eqb {| cascadeMap := [("a", 1)]; defaultValue := Some 0 |} other
         = true.
Proof.
  apply (has_after_set Nat.eqb
           {| cascadeMap := [("a", 1)]; defaultValue := Some 0 |}
           (mkInfo (Some (mkPath (KString "b") (Some (mkPath (KString "a") None)))))
           2 "a:b"); reflexivity.
Defined.

End CascadeFacts.

(** ** Facts about the schema generator *)

Module SchemaFacts.
Import Js JsFacts Schema.

#[local] Set Warnings "-clear-no-such-hyp".

(** Induction on a field definition, from the innermost [items] out. *)
Lemma FieldDefinition_induction (P : FieldDefinition -> Prop) :
  (forall i t r d o l v, P (mkField i t r d o None l v)) ->
  (forall i t r d o fieldItems l v,
     P fieldItems -> P (mkField i t r d o (Some fieldItems) l v)) ->
  forall field, P field.
Proof.
  intros Hleaf Hstep. fix IH 1.
  intros [i t r d o [fieldItems|] l v]; [apply Hstep, IH | apply Hleaf].
Qed.

Lemma Map_get_None {V : Type} (entries : list (string * V)) (k : string) :
  ~ In k (map fst entries) -> Map_get entries k = None.
Proof.
  induction entries as [|[k' v] rest IH]; intros Hnot; [reflexivity |].
  cbn [Map_get]. destruct (String.eqb_spec k' k) as [-> | Hne].
  - destruct Hnot. now left.
  - apply IH. intros Hin. apply Hnot. now right.
Qed.

Section Translation.

Variable makeTypeName : option string -> option string -> string.

Abbreviation getLinkFieldType := (getLinkFieldType makeTypeName).
Abbreviation translateFieldType := (translateFieldType makeTypeName).
Abbreviation translateFields := (translateFields makeTypeName).
Abbreviation generateContentType := (generateContentType makeTypeName).
Abbreviation generateContentTypes := (generateContentTypes makeTypeName).
Abbreviation generateSchema := (generateSchema makeTypeName).
Abbreviation registerUnion := (registerUnion makeTypeName).
Abbreviation descriptorOf := (descriptorOf makeTypeName).

(** The full and the compact names of a list of content types. *)
Abbreviation fullNames := (map (fun typeName => makeTypeName (Some typeName) None)).
Abbreviation shortNames := (map (fun typeName => makeTypeName (Some typeName) (Some ""))).

Lemma translateFieldType_unfold (field : FieldDefinition) :
  translateFieldType field =
  (let! fieldType :=
    (if String.eqb (type field) "Array" then
       match items field with
       | None => throw itemsUndefined
       | Some fieldItems =>
           let! fieldData :=
             (if String.eqb (type fieldItems) "Link"
              then getLinkFieldType (linkType fieldItems) field
              else translateFieldType fieldItems) in
           ret {| typeExpr := "[" +:+ typeExpr fieldData +:+ "]";
                  extensions := extensions fieldData |}
       end
     else if String.eqb (type field) "Link" then
       getLinkFieldType (linkType field) field
     else
       match Map_get ContentfulDataTypes (type field) with
       | None => throw notAFunction
       | Some handler => ret (handler field)
       end) in
  if required field
  then ret {| typeExpr := typeExpr fieldType +:+ "!";
              extensions := extensions fieldType |}
  else ret fieldType).
Proof. destruct field; reflexivity. Qed.

(** *** The three outcomes of the link translator *)

Lemma getLinkFieldType_fallback (linkType : option string)
    (field : FieldDefinition) (w : World) :
  linkContentTypes field = None ->
  getLinkFieldType linkType field w
  = (w, Return {| typeExpr := "Contentful" +:+ interpolate linkType;
                  extensions := Some (nodeLink field) |}).
Proof.
  unfold linkContentTypes, Schema.getLinkFieldType. intros H.
  destruct (items field ≫= validations) as [vs|]; [| reflexivity].
  cbn in H. destruct (List.find isLinkContentTypeValidation vs) as [v|] eqn:Hfind;
    [| reflexivity].
  apply find_some in Hfind. destruct Hfind as [_ Hv].
  unfold isLinkContentTypeValidation in Hv. cbn in H.
  destruct (linkContentType v); [discriminate H | discriminate Hv].
Qed.

Lemma linkContentTypes_Some (field : FieldDefinition) (cts : list string) :
  linkContentTypes field = Some cts ->
  exists vs v,
    items field ≫= validations = Some vs
    /\ List.find isLinkContentTypeValidation vs = Some v
    /\ match linkContentType v with
       | Some l => contentTypesOf l
       | None => []
       end = cts.
Proof.
  unfold linkContentTypes. intros H.
  destruct (items field ≫= validations) as [vs|]; [| discriminate H].
  cbn in H.
  destruct (List.find isLinkContentTypeValidation vs) as [v|] eqn:Hfind;
    [| discriminate H].
  cbn in H. exists vs, v. split; [reflexivity | split; [assumption |]].
  destruct (linkContentType v); [now injection H | discriminate H].
Qed.

(** An array of links whose validations name one content type. *)
Lemma getLinkFieldType_single (linkType : option string)
    (field : FieldDefinition) (typeName : string) (w : World) :
  linkContentTypes field = Some [typeName] ->
  getLinkFieldType linkType field w
  = (w, Return {| typeExpr := makeTypeName (Some typeName) None;
                  extensions := Some (nodeLink field) |}).
Proof.
  intros H. apply linkContentTypes_Some in H.
  destruct H as (vs & v & Hvs & Hfind & Hcts).
  unfold Schema.getLinkFieldType. rewrite Hvs, Hfind, Hcts. reflexivity.
Qed.

Lemma getLinkFieldType_union (linkType : option string)
    (field : FieldDefinition) (cts : list string) (w : World) :
  linkContentTypes field = Some cts ->
  length cts <> 1 ->
  getLinkFieldType linkType field w
  = (registerUnion cts w,
     Return {| typeExpr := unionNameOf (shortNames cts);
               extensions := Some (nodeLink field) |}).
Proof.
  intros H Hlen. apply linkContentTypes_Some in H.
  destruct H as (vs & v & Hvs & Hfind & Hcts).
  unfold Schema.getLinkFieldType. rewrite Hvs, Hfind, Hcts.
  unfold Schema.registerUnion. cbv zeta.
  destruct cts as [|a [|b rest]]; [| destruct Hlen; reflexivity |];
    cbn [map]; unfold bind, unionsNameSet_has, unionsNameSet_add, createTypes, ret;
    destruct (bool_decide _); reflexivity.
Qed.

(** *** Link fields that are not arrays *)

(** The validations of a field without [items] are never looked at. *)
Lemma getLinkFieldType_without_items (linkType : option string)
    (field : FieldDefinition) (w : World) :
  items field = None ->
  getLinkFieldType linkType field w
  = (w, Return {| typeExpr := "Contentful" +:+ interpolate linkType;
                  extensions := Some (nodeLink field) |}).
Proof.
  intros H. apply getLinkFieldType_fallback.
  unfold linkContentTypes. now rewrite H.
Qed.

(** C1 fails for a link field that is not an array. The field [author],
    a link to an entry whose own validations name the one content type
    [person], is translated to the generic [ContentfulEntry], whatever
    [makeTypeName] is; the state is left as it was. *)
Lemma lone_link_validation_ignored (w : World) :
  translateFieldType
    {| id := Some "author"; type := "Link"; required := false;
       disabled := false; omitted := false; items := None;
       linkType := Some "Entry";
       validations := Some [ {| linkContentType := Some (LctArray ["person"]) |} ] |}
    w
  = (w, Return {| typeExpr := "ContentfulEntry";
                  extensions := Some (LinkExtension
                    {| link_by := "id"; link_from := "author___NODE" |}) |}).
Proof. reflexivity. Qed.

(** *** Arrays *)

Lemma translateFieldType_array_eq (field fieldItems : FieldDefinition) (w : World) :
  type field = "Array" ->
  items field = Some fieldItems ->
  translateFieldType field w
  = arrayOf (required field)
      (if String.eqb (type fieldItems) "Link"
       then getLinkFieldType (linkType fieldItems) field w
       else translateFieldType fieldItems w).
Proof.
  intros Htype Hitems. rewrite translateFieldType_unfold.
  rewrite Htype, Hitems. cbn [String.eqb Ascii.eqb Bool.eqb].
  unfold bind, arrayOf.
  destruct (String.eqb (type fieldItems) "Link");
    match goal with
    | |- context [getLinkFieldType ?l ?f ?w] =>
        destruct (getLinkFieldType l f w) as [w' [d|e]]
    | |- context [translateFieldType ?f ?w] =>
        destruct (translateFieldType f w) as [w' [d|e]]
    end;
    try reflexivity; destruct (required field); reflexivity.
Qed.

(** C6, amended: an array field whose items are not links is translated
    as its items are, with the type wrapped once in brackets and the
    required marker appended exactly when the array is required, whether
    or not the items are required; a failure of the items is the failure
    of the array. An array whose items are links takes as element the
    link translator's answer for the array field itself (its id, the
    validations under its [items]), in which the items' own [required] has
    no part, and wraps it the same way. *)
Theorem translateFieldType_array (field fieldItems : FieldDefinition) (w : World) :
  type field = "Array" ->
  items field = Some fieldItems ->
  (type fieldItems <> "Link" ->
   translateFieldType field w
   = arrayOf (required field) (translateFieldType fieldItems w))
  /\ (type fieldItems = "Link" ->
      translateFieldType field w
      = arrayOf (required field)
          (getLinkFieldType (linkType fieldItems) field w)).
Proof.
  intros Htype Hitems.
  rewrite (translateFieldType_array_eq field fieldItems w Htype Hitems).
  split; intros Hkind.
  - apply String.eqb_neq in Hkind. now rewrite Hkind.
  - now rewrite Hkind.
Qed.

(** *** Unknown kinds *)

(** C8: a field that is neither an array nor a link and whose kind is not
    a key of the primitive table is not translated: the lookup finds
    nothing, calling what it found throws (the runtime's [TypeError]),
    and the state is left as it was. *)
Theorem translateFieldType_unknown_kind (field : FieldDefinition) (w : World) :
  type field <> "Array" ->
  type field <> "Link" ->
  ~ In (type field) (map fst ContentfulDataTypes) ->
  translateFieldType field w = (w, Throw notAFunction).
Proof.
  intros Harray Hlink Hkind. rewrite translateFieldType_unfold.
  apply String.eqb_neq in Harray, Hlink. rewrite Harray, Hlink.
  now rewrite (Map_get_None _ _ Hkind).
Qed.

(** *** The registry of unions *)

Lemma unionNames_app (l1 l2 : list TypeDef) :
  unionNames (l1 ++ l2) = unionNames l1 ++ unionNames l2.
Proof.
  induction l1 as [|t l1 IH]; [reflexivity |].
  destruct t; cbn; now rewrite IH.
Qed.

Lemma registryOk_empty : registryOk emptyWorld.
Proof.
  split; [constructor |].
  intros n. split; [intros H; now apply not_elem_of_empty in H | intros []].
Qed.

Lemma registerUnion_ok (cts : list string) (w : World) :
  registryOk w -> registryOk (registerUnion cts w).
Proof.
  intros [Hnodup Hsame]. unfold Schema.registerUnion. cbv zeta.
  case_bool_decide as Hreg; [now split |].
  split; cbn [declared unionsNameSet]; rewrite unionNames_app; cbn [unionNames].
  - apply NoDup_app. repeat split.
    + assumption.
    + intros x Hx Hx'. apply list_elem_of_In in Hx.
      apply list_elem_of_singleton in Hx'. subst x.
      apply Hreg, Hsame, Hx.
    + apply NoDup_singleton.
  - intros n. rewrite elem_of_union, elem_of_singleton, in_app_iff, Hsame.
    cbn. intuition congruence.
Qed.

Lemma registerUnion_registered (cts : list string) (w : World) :
  unionNameOf (shortNames cts) ∈ unionsNameSet (registerUnion cts w).
Proof.
  unfold Schema.registerUnion. cbv zeta.
  case_bool_decide as Hreg; [assumption |].
  cbn. apply elem_of_union_l, elem_of_singleton. reflexivity.
Qed.

Lemma registerUnion_idem (cts : list string) (w : World) :
  registerUnion cts (registerUnion cts w) = registerUnion cts w.
Proof.
  pose proof (registerUnion_registered cts w) as Hreg.
  unfold Schema.registerUnion at 1. cbv zeta.
  now rewrite (bool_decide_eq_true_2 _ Hreg).
Qed.

(** The state after a call of the link translator. *)
Lemma getLinkFieldType_world (linkType : option string)
    (field : FieldDefinition) (w : World) :
  (getLinkFieldType linkType field w).1
  = match linkContentTypes field with
    | Some cts => if Nat.eqb (length cts) 1 then w else registerUnion cts w
    | None => w
    end.
Proof.
  destruct (linkContentTypes field) as [cts|] eqn:Hcts.
  - destruct (Nat.eqb_spec (length cts) 1) as [Hlen | Hlen].
    + destruct cts as [|t [|]]; try discriminate Hlen.
      now rewrite (getLinkFieldType_single _ _ _ _ Hcts).
    + now rewrite (getLinkFieldType_union _ _ _ _ Hcts Hlen).
  - now rewrite (getLinkFieldType_fallback _ _ _ Hcts).
Qed.

Lemma getLinkFieldType_ok (linkType : option string)
    (field : FieldDefinition) (w : World) :
  registryOk w -> registryOk (getLinkFieldType linkType field w).1.
Proof.
  intros Hok. rewrite getLinkFieldType_world.
  destruct (linkContentTypes field) as [cts|]; [| assumption].
  destruct (Nat.eqb (length cts) 1); [assumption |].
  now apply registerUnion_ok.
Qed.

Lemma translateFieldType_ok (field : FieldDefinition) :
  forall w, registryOk w -> registryOk (translateFieldType field w).1.
Proof.
  induction field as [i t r d o l v | i t r d o fieldItems l v IH]
    using FieldDefinition_induction; intros w Hok;
    rewrite translateFieldType_unfold; cbn [type items required Schema.linkType];
    unfold bind.
  - destruct (String.eqb t "Array"); [destruct r; exact Hok |].
    destruct (String.eqb t "Link").
    + pose proof (getLinkFieldType_ok l
        (mkField i t r d o None l v) w Hok) as Hlink.
      destruct (getLinkFieldType _ _ w) as [w' [fd|e]]; [destruct r |]; exact Hlink.
    + destruct (Map_get ContentfulDataTypes t); [destruct r |]; exact Hok.
  - destruct (String.eqb t "Array").
    + destruct (String.eqb (type fieldItems) "Link").
      * pose proof (getLinkFieldType_ok (Schema.linkType fieldItems)
          (mkField i t r d o (Some fieldItems) l v) w Hok) as Hlink.
        destruct (getLinkFieldType _ _ w) as [w' [fd|e]]; [destruct r |];
          exact Hlink.
      * specialize (IH w Hok).
        destruct (translateFieldType fieldItems w) as [w' [fd|e]]; [destruct r |];
          exact IH.
    + destruct (String.eqb t "Link").
      * pose proof (getLinkFieldType_ok l
          (mkField i t r d o (Some fieldItems) l v) w Hok) as Hlink.
        destruct (getLinkFieldType _ _ w) as [w' [fd|e]]; [destruct r |];
          exact Hlink.
      * destruct (Map_get ContentfulDataTypes t); [destruct r |]; exact Hok.
Qed.

Lemma registerUnion_same_name (cts1 cts2 : list string) (w : World) :
  unionNameOf (shortNames cts1) = unionNameOf (shortNames cts2) ->
  registerUnion cts2 (registerUnion cts1 w) = registerUnion cts1 w.
Proof.
  intros Hname.
  pose proof (registerUnion_registered cts1 w) as Hreg.
  rewrite Hname in Hreg.
  unfold Schema.registerUnion at 1. cbv zeta.
  now rewrite (bool_decide_eq_true_2 _ Hreg).
Qed.

(** C7, amended: a union is declared at most once per name, the name being
    [UnionContentful] followed by the compact names of the content types
    in the order the validation lists them. No translation of a field
    ever declares a union of one name twice or makes the names of the
    declared unions and the registered names differ. When two fields
    passed to the link translator name, under [items.validations], content
    types (not exactly one each) that give the same union name, as the
    same content types in the same order do, both descriptors carry that
    name, the union is declared once (by the first call and with its
    members, unless the name was registered before), and the second call
    changes nothing. *)
Theorem union_declared_once :
  (forall field w, registryOk w -> registryOk (translateFieldType field w).1)
  /\ (forall linkType1 linkType2 field1 field2 cts1 cts2 w,
        registryOk w ->
        linkContentTypes field1 = Some cts1 ->
        linkContentTypes field2 = Some cts2 ->
        length cts1 <> 1 ->
        length cts2 <> 1 ->
        unionNameOf (shortNames cts1) = unionNameOf (shortNames cts2) ->
        exists w1,
          getLinkFieldType linkType1 field1 w
          = (w1, Return {| typeExpr := unionNameOf (shortNames cts1);
                           extensions := Some (nodeLink field1) |})
          /\ getLinkFieldType linkType2 field2 w1
             = (w1, Return {| typeExpr := unionNameOf (shortNames cts1);
                              extensions := Some (nodeLink field2) |})
          /\ count_occ String.string_dec (unionNames (declared w1))
               (unionNameOf (shortNames cts1)) = 1
          /\ (unionNameOf (shortNames cts1) ∉ unionsNameSet w ->
              declared w1
              = declared w
                ++ [UnionType (unionNameOf (shortNames cts1)) (fullNames cts1)])).
Proof.
  split; [intros field w; apply translateFieldType_ok |].
  intros lt1 lt2 f1 f2 cts1 cts2 w Hok H1 H2 Hlen1 Hlen2 Hname.
  exists (registerUnion cts1 w). split; [| split; [| split]].
  - now apply getLinkFieldType_union.
  - rewrite (getLinkFieldType_union _ _ _ _ H2 Hlen2).
    now rewrite (registerUnion_same_name _ _ _ Hname), <- Hname.
  - destruct (registerUnion_ok cts1 w Hok) as [Hnodup Hsame].
    pose proof (registerUnion_registered cts1 w) as Hreg.
    apply Hsame in Hreg.
    apply (count_occ_In String.string_dec) in Hreg.
    apply NoDup_ListNoDup in Hnodup.
    rewrite (NoDup_count_occ String.string_dec) in Hnodup.
    specialize (Hnodup (unionNameOf (shortNames cts1))). lia.
  - intros Hnew. unfold Schema.registerUnion. cbv zeta.
    now rewrite (bool_decide_eq_false_2 _ Hnew).
Qed.

(** *** Failure of a content type *)

Lemma generateContentType_throw (useNameForId : bool)
    (contentTypeItem : ContentTypeItem) (w w' : World) (e : Exception) :
  translateFields (fields contentTypeItem) ∅ w = (w', Throw e) ->
  generateContentType useNameForId contentTypeItem w
  = (w', Throw (annotate contentTypeItem e)).
Proof.
  intros H. unfold Schema.generateContentType, tryCatch, bind. now rewrite H.
Qed.

Lemma generateContentTypes_app (useNameForId : bool)
    (l1 l2 : list ContentTypeItem) (w : World) :
  generateContentTypes useNameForId (l1 ++ l2) w
  = match generateContentTypes useNameForId l1 w with
    | (w', Return _) => generateContentTypes useNameForId l2 w'
    | (w', Throw e) => (w', Throw e)
    end.
Proof.
  revert w. induction l1 as [|item l1 IH]; intros w; [reflexivity |].
  cbn [app Schema.generateContentTypes]. unfold bind.
  destruct (generateContentType useNameForId item w) as [w' [[]|e]];
    [apply IH | reflexivity].
Qed.

Lemma displayName_cases (contentTypeItem : ContentTypeItem) :
  displayName contentTypeItem
  = match name contentTypeItem with
    | Some n => if truthy n then n else sys_id contentTypeItem
    | None => sys_id contentTypeItem
    end.
Proof. unfold displayName. now destruct (name contentTypeItem). Qed.

(** C9: when the content types before [contentTypeItem] are generated
    without failure and the translation of its fields throws [e], the
    whole of [generateSchema] throws [e] with its message prefixed by the
    content type's name (its id when the name is missing or empty). The
    outcome, state included, is that of the failed translation: it does
    not depend on the content types that follow, none of which is
    translated or declared. *)
Theorem generateSchema_aborts (useNameForId : bool)
    (before after : list ContentTypeItem) (contentTypeItem : ContentTypeItem)
    (w w1 w2 : World) (e : Exception) :
  generateSchema useNameForId before w = (w1, Return tt) ->
  translateFields (fields contentTypeItem) ∅ w1 = (w2, Throw e) ->
  generateSchema useNameForId (before ++ contentTypeItem :: after) w
  = (w2, Throw
       {| class := class e;
          message :=
            "Unable to create schema for Contentful Content Type "
            +:+ match name contentTypeItem with
                | Some n => if truthy n then n else sys_id contentTypeItem
                | None => sys_id contentTypeItem
                end
            +:+ ":" +:+ newline +:+ message e |}).
Proof.
  intros Hbefore Hfields. unfold Schema.generateSchema, bind in *.
  destruct (genericTypes w) as [w0 [[]|e0]]; [| discriminate Hbefore].
  rewrite generateContentTypes_app, Hbefore.
  cbn [Schema.generateContentTypes]. unfold bind.
  rewrite (generateContentType_throw _ _ _ _ _ Hfields).
  unfold annotate. now rewrite displayName_cases.
Qed.

(** *** The fields of a content type *)

Lemma getLinkFieldType_result (linkType : option string)
    (field : FieldDefinition) (w w' : World) :
  (getLinkFieldType linkType field w).2 = (getLinkFieldType linkType field w').2.
Proof.
  destruct (linkContentTypes field) as [cts|] eqn:Hcts.
  - destruct (Nat.eqb_spec (length cts) 1) as [Hlen | Hlen].
    + destruct cts as [|t [|]]; try discriminate Hlen.
      now rewrite !(getLinkFieldType_single _ _ _ _ Hcts).
    + now rewrite !(getLinkFieldType_union _ _ _ _ Hcts Hlen).
  - now rewrite !(getLinkFieldType_fallback _ _ _ Hcts).
Qed.

(** Two runs of a step whose results agree, taken apart together; what
    follows the step is decided by the result and by [isRequired]. *)
Ltac both_runs Hsame isRequired :=
  match type of Hsame with
  | (?m ?w).2 = (?m ?w').2 =>
      let res := fresh "res" in
      let res' := fresh "res" in
      destruct (m w) as [? res]; destruct (m w') as [? res'];
      cbn [snd] in Hsame; subst res';
      destruct res; [destruct isRequired |]; reflexivity
  end.

(** The state has no part in the descriptor of a field. *)
Lemma translateFieldType_result (field : FieldDefinition) :
  forall w w', (translateFieldType field w).2 = (translateFieldType field w').2.
Proof.
  induction field as [i t r d o l v | i t r d o fieldItems l v IH]
    using FieldDefinition_induction; intros w w';
    rewrite !translateFieldType_unfold; cbn [type items required Schema.linkType];
    unfold bind.
  - destruct (String.eqb t "Array"); [reflexivity |].
    destruct (String.eqb t "Link").
    + pose proof (getLinkFieldType_result l
        (mkField i t r d o None l v) w w') as Hsame.
      both_runs Hsame r.
    + destruct (Map_get ContentfulDataTypes t); [destruct r |]; reflexivity.
  - destruct (String.eqb t "Array").
    + destruct (String.eqb (type fieldItems) "Link").
      * pose proof (getLinkFieldType_result (Schema.linkType fieldItems)
          (mkField i t r d o (Some fieldItems) l v) w w') as Hsame.
        both_runs Hsame r.
      * specialize (IH w w'). both_runs IH r.
    + destruct (String.eqb t "Link").
      * pose proof (getLinkFieldType_result l
          (mkField i t r d o (Some fieldItems) l v) w w') as Hsame.
        both_runs Hsame r.
      * destruct (Map_get ContentfulDataTypes t); [destruct r |]; reflexivity.
Qed.

Lemma translateFieldType_descriptor (field : FieldDefinition) (w : World) :
  (translateFieldType field w).2 = descriptorOf field.
Proof. apply translateFieldType_result. Qed.

Lemma translateFields_app (l1 l2 : list FieldDefinition) :
  forall acc w,
  translateFields (l1 ++ l2) acc w
  = match translateFields l1 acc w with
    | (w', Return m) => translateFields l2 m w'
    | (w', Throw e) => (w', Throw e)
    end.
Proof.
  induction l1 as [|g l1 IH]; intros acc w; [reflexivity |].
  cbn [app Schema.translateFields].
  destruct (disabled g || omitted g); [apply IH |].
  unfold bind. destruct (translateFieldType g w) as [w' [d|e]];
    [apply IH | reflexivity].
Qed.

(** Fields that all translate leave the entries of other keys alone. *)
Lemma translateFields_other_keys (l : list FieldDefinition) (k : string) :
  (forall g, In g l -> enabled g = true -> exists d, descriptorOf g = Return d) ->
  (forall g, In g l -> enabled g = true -> fieldKey g <> k) ->
  forall acc w,
  exists w' (m : gmap string TypeDescriptor),
    translateFields l acc w = (w', Return m) /\ m !! k = acc !! k.
Proof.
  induction l as [|g l IH]; intros Hall Hkeys acc w; [now exists w, acc |].
  cbn [Schema.translateFields]. unfold enabled in *.
  destruct (disabled g || omitted g) eqn:Hoff.
  - apply IH; intros g' Hin; [apply Hall | apply Hkeys]; now right.
  - destruct (Hall g (or_introl eq_refl)) as [d Hd]; [now rewrite Hoff |].
    unfold bind. pose proof (translateFieldType_descriptor g w) as Hrun.
    destruct (translateFieldType g w) as [w1 r]. cbn in Hrun. subst r.
    rewrite Hd.
    destruct (IH (fun g' Hin => Hall g' (or_intror Hin))
                 (fun g' Hin => Hkeys g' (or_intror Hin))
                 (setProperty acc (interpolate (id g)) d) w1)
      as (w' & m & Hrest & Hm).
    exists w', m. split; [assumption |].
    rewrite Hm. apply lookup_setProperty_ne.
    apply (Hkeys g (or_introl eq_refl)). now rewrite Hoff.
Qed.

Lemma objectFields_lookup (m : gmap string TypeDescriptor)
    (k : string) (d : TypeDescriptor) :
  m !! k = Some d -> objectFields m !! k = Some (Config d None).
Proof.
  intros Hk. unfold objectFields.
  apply lookup_union_Some_l. now rewrite lookup_fmap, Hk.
Qed.

Lemma filter_none {A : Type} (f : A -> bool) (l : list A) :
  (forall x, In x l -> f x = false) -> List.filter f l = [].
Proof.
  induction l as [|x l IH]; intros Hall; [reflexivity |].
  cbn [List.filter]. rewrite (Hall x (or_introl eq_refl)).
  apply IH. intros y Hy. apply Hall. now right.
Qed.

(** A map has one entry for a key it has. *)
Lemma one_entry_per_key {V : Type} (m : gmap string V) (k : string) (v : V) :
  m !! k = Some v ->
  List.filter (fun kv => String.eqb kv.1 k) (map_to_list m) = [(k, v)].
Proof.
  induction m as [|k' v' m Hfresh Hfirst IH] using map_first_key_ind;
    intros Hk; [now rewrite lookup_empty in Hk |].
  rewrite (map_to_list_insert_first_key _ _ _ Hfresh Hfirst).
  cbn [List.filter fst].
  destruct (String.eqb_spec k' k) as [-> | Hne].
  - rewrite lookup_insert_eq in Hk. injection Hk as ->. f_equal.
    apply filter_none.
    intros [k2 v2] Hin. apply list_elem_of_In, elem_of_map_to_list in Hin.
    cbn. apply String.eqb_neq. intros ->. congruence.
  - rewrite lookup_insert_ne in Hk by assumption. now apply IH.
Qed.

(** C10, amended: let two enabled fields of a content type share an id
    other than [__proto__], the later one, [field2], being the last
    enabled field of that id, and let every enabled field translate. Then
    nothing is thrown; the field map holds under that id the translation
    of [field2]; and the declared object type has under that id one
    entry, which is that translation. *)
Theorem duplicate_id_last_wins (useNameForId : bool)
    (contentTypeItem : ContentTypeItem)
    (front middle back : list FieldDefinition)
    (field1 field2 : FieldDefinition) (d : TypeDescriptor) (w : World) :
  fields contentTypeItem = front ++ field1 :: middle ++ field2 :: back ->
  enabled field1 = true ->
  enabled field2 = true ->
  fieldKey field1 = fieldKey field2 ->
  fieldKey field2 <> "__proto__" ->
  (forall g, In g back -> enabled g = true -> fieldKey g <> fieldKey field2) ->
  (forall g, In g (fields contentTypeItem) -> enabled g = true ->
             exists dg, descriptorOf g = Return dg) ->
  descriptorOf field2 = Return d ->
  exists w' (m : gmap string TypeDescriptor),
    translateFields (fields contentTypeItem) ∅ w = (w', Return m)
    /\ m !! fieldKey field2 = Some d
    /\ generateContentType useNameForId contentTypeItem w
       = ({| unionsNameSet := unionsNameSet w';
             declared :=
               declared w'
               ++ [ObjectType
                     (makeTypeName
                        (if useNameForId then name contentTypeItem
                         else Some (sys_id contentTypeItem)) None)
                     (objectFields m)
                     ["ContentfulInternalReference"; "ContentfulEntry"; "Node"]
                     true] |},
          Return tt)
    /\ List.filter (fun kv => String.eqb kv.1 (fieldKey field2))
         (map_to_list (objectFields m))
       = [(fieldKey field2, Config d None)].
Proof.
  intros Hfields Hon1 Hon2 Hsame Hproto Hlast Hall Hd.
  assert (forall g, In g (front ++ field1 :: middle) -> enabled g = true ->
                    exists dg, descriptorOf g = Return dg) as Hall1.
  { intros g Hin. apply Hall. rewrite Hfields.
    replace (front ++ field1 :: middle ++ field2 :: back)
      with ((front ++ field1 :: middle) ++ field2 :: back)
      by (now rewrite <- app_assoc).
    apply in_or_app. now left. }
  assert (forall g, In g back -> enabled g = true ->
                    exists dg, descriptorOf g = Return dg) as Hall2.
  { intros g Hin. apply Hall. rewrite Hfields.
    apply in_or_app. right. right. apply in_or_app. right. now right. }
  assert (exists w1 (m1 : gmap string TypeDescriptor),
            translateFields (front ++ field1 :: middle) ∅ w = (w1, Return m1))
    as (w1 & m1 & Hrun1).
  { clear - Hall1. revert Hall1.
    generalize (front ++ field1 :: middle) (∅ : gmap string TypeDescriptor) w.
    intros l. induction l as [|g l IH]; intros acc w0 Hall1; [now exists w0, acc |].
    cbn [Schema.translateFields]. unfold enabled in Hall1.
    destruct (disabled g || omitted g) eqn:Hoff.
    - apply IH. intros g' Hin. apply Hall1. now right.
    - destruct (Hall1 g (or_introl eq_refl)) as [dg Hdg]; [now rewrite Hoff |].
      unfold bind. pose proof (translateFieldType_descriptor g w0) as Hrun.
      destruct (translateFieldType g w0) as [w1 r]. cbn in Hrun. subst r.
      rewrite Hdg. apply IH. intros g' Hin. apply Hall1. now right. }
  pose proof (translateFieldType_descriptor field2 w1) as Hrun2.
  destruct (translateFieldType field2 w1) as [w2 r2] eqn:Hstep. cbn in Hrun2.
  subst r2.
  destruct (translateFields_other_keys back (fieldKey field2) Hall2 Hlast
              (<[fieldKey field2 := d]> m1) w2) as (w' & m & Hrun3 & Hm).
  rewrite lookup_insert_eq in Hm.
  assert (translateFields (fields contentTypeItem) ∅ w = (w', Return m)) as Hrun.
  { rewrite Hfields.
    replace (front ++ field1 :: middle ++ field2 :: back)
      with ((front ++ field1 :: middle) ++ field2 :: back)
      by (now rewrite <- app_assoc).
    rewrite translateFields_app, Hrun1. cbn [Schema.translateFields].
    unfold enabled in Hon2. apply negb_true_iff in Hon2. rewrite Hon2.
    unfold bind. rewrite Hstep, Hd.
    rewrite (setProperty_insert _ _ _ Hproto). exact Hrun3. }
  exists w', m. repeat split; try assumption.
  - unfold Schema.generateContentType, tryCatch, bind. now rewrite Hrun.
  - apply one_entry_per_key, objectFields_lookup, Hm.
Qed.

(** *** Further properties of the translation *)

(** An array of links whose item validations name exactly one content
    type is a list of that content type's full name, with the array's id
    in the foreign key; no union is declared. *)
Theorem array_of_links_single_type (field fieldItems : FieldDefinition)
    (typeName : string) (w : World) :
  type field = "Array" ->
  items field = Some fieldItems ->
  type fieldItems = "Link" ->
  linkContentTypes field = Some [typeName] ->
  translateFieldType field w
  = (w, Return {| typeExpr :=
                    if required field
                    then ("[" +:+ makeTypeName (Some typeName) None +:+ "]") +:+ "!"
                    else "[" +:+ makeTypeName (Some typeName) None +:+ "]";
                  extensions := Some (LinkExtension
                    {| link_by := "id";
                       link_from := interpolate (id field) +:+ "___NODE" |}) |}).
Proof.
  intros Htype Hitems Hkind Hcts.
  rewrite (translateFieldType_array_eq field fieldItems w Htype Hitems).
  rewrite Hkind. cbn [String.eqb Ascii.eqb Bool.eqb].
  now rewrite (getLinkFieldType_single _ _ _ _ Hcts).
Qed.

(** Every kind of the primitive table is translated to its type name,
    with one required marker when the field is required, and the state is
    left as it was. *)
Theorem primitive_kind_type (field : FieldDefinition) (w : World)
    (kind typeName : string) :
  In (kind, typeName)
     [ ("Symbol", "String"); ("Text", "ContentfulNodeTypeText");
       ("Integer", "Int"); ("Number", "Float"); ("Date", "Date");
       ("Object", "JSON"); ("Boolean", "Boolean");
       ("Location", "ContentfulNodeTypeLocation");
       ("RichText", "ContentfulNodeTypeRichText") ] ->
  type field = kind ->
  exists d,
    translateFieldType field w = (w, Return d)
    /\ typeExpr d = if required field then typeName +:+ "!" else typeName.
Proof.
  intros Hin Hkind. rewrite translateFieldType_unfold, Hkind.
  cbn in Hin.
  repeat (destruct Hin as [Hin | Hin];
          [injection Hin as <- <-; cbn; unfold bind, ret;
           destruct (required field); eexists; split; reflexivity |]).
  destruct Hin.
Qed.

(** An entry of the field map comes from an enabled field: a disabled or
    omitted field leaves none. *)
Theorem translateFields_only_enabled (l : list FieldDefinition) :
  forall (acc : gmap string TypeDescriptor) w w' m k d,
  translateFields l acc w = (w', Return m) ->
  m !! k = Some d ->
  acc !! k = Some d
  \/ exists g, In g l /\ disabled g = false /\ omitted g = false /\ fieldKey g = k.
Proof.
  induction l as [|g l IH]; intros acc w w' m k d Hrun Hk.
  - injection Hrun as <- <-. now left.
  - cbn [Schema.translateFields] in Hrun.
    destruct (disabled g || omitted g) eqn:Hoff.
    + destruct (IH _ _ _ _ _ _ Hrun Hk) as [Hacc | (g' & Hin & Hg')];
        [now left | right; exists g'; split; [now right | exact Hg']].
    + unfold bind in Hrun.
      destruct (translateFieldType g w) as [w1 [dg|e]]; [| discriminate Hrun].
      destruct (IH _ _ _ _ _ _ Hrun Hk) as [Hacc | (g' & Hin & Hg')].
      * destruct (decide (interpolate (id g) = k)) as [Heq | Hne].
        -- right. exists g. apply orb_false_iff in Hoff. destruct Hoff.
           repeat split; auto. now left.
        -- left. now rewrite lookup_setProperty_ne in Hacc.
      * right. exists g'. split; [now right | exact Hg'].
Qed.

(** *** Which fields are translated *)

Lemma getLinkFieldType_returns (linkType : option string)
    (field : FieldDefinition) (w : World) :
  exists w' d, getLinkFieldType linkType field w = (w', Return d).
Proof.
  destruct (linkContentTypes field) as [cts|] eqn:Hcts.
  - destruct (Nat.eqb_spec (length cts) 1) as [Hlen | Hlen].
    + destruct cts as [|t [|]]; try discriminate Hlen.
      rewrite (getLinkFieldType_single _ _ _ _ Hcts). eauto.
    + rewrite (getLinkFieldType_union _ _ _ _ Hcts Hlen). eauto.
  - rewrite (getLinkFieldType_fallback _ _ _ Hcts). eauto.
Qed.

Lemma Map_get_primitive (kind : string) :
  existsb (String.eqb kind) primitiveKinds = true ->
  exists handler, Map_get ContentfulDataTypes kind = Some handler.
Proof.
  intros H. apply existsb_exists in H. destruct H as (k & Hin & Heq).
  apply String.eqb_eq in Heq. subst k. cbn in Hin.
  repeat (destruct Hin as [<- | Hin]; [cbn; eauto |]). destruct Hin.
Qed.

Lemma Map_get_not_primitive (kind : string) :
  existsb (String.eqb kind) primitiveKinds = false ->
  Map_get ContentfulDataTypes kind = None.
Proof.
  intros H. apply Map_get_None. intros Hin.
  change (map fst ContentfulDataTypes) with primitiveKinds in Hin.
  assert (existsb (String.eqb kind) primitiveKinds = true) as Hyes
    by (apply existsb_exists; exists kind; split;
        [assumption | apply String.eqb_refl]).
  congruence.
Qed.

(** The two ways a translation ends. *)
Lemma translateFieldType_cases (field : FieldDefinition) :
  forall w,
  if translatable field
  then exists w' d, translateFieldType field w = (w', Return d)
  else exists e, translateFieldType field w = (w, Throw e) /\ class e = TypeError.
Proof.
  induction field as [i t r d o l v | i t r d o fieldItems l v IH]
    using FieldDefinition_induction; intros w;
    rewrite translateFieldType_unfold;
    cbn [translatable type items required Schema.linkType]; unfold bind.
  - destruct (String.eqb t "Array"); [cbn; eauto |].
    destruct (String.eqb t "Link"); cbn [orb].
    + destruct (getLinkFieldType_returns l (mkField i t r d o None l v) w)
        as (w' & fd & ->).
      destruct r; cbn; eauto.
    + destruct (existsb (String.eqb t) primitiveKinds) eqn:Hkind.
      * destruct (Map_get_primitive t Hkind) as [handler ->].
        destruct r; cbn; eauto.
      * rewrite (Map_get_not_primitive t Hkind). cbn. eauto.
  - destruct (String.eqb t "Array").
    + destruct (String.eqb (type fieldItems) "Link"); cbn [orb].
      * destruct (getLinkFieldType_returns (Schema.linkType fieldItems)
                    (mkField i t r d o (Some fieldItems) l v) w)
          as (w' & fd & ->).
        destruct r; cbn; eauto.
      * specialize (IH w). destruct (translatable fieldItems).
        -- destruct IH as (w' & fd & ->). destruct r; cbn; eauto.
        -- destruct IH as (e & -> & He). eauto.
    + destruct (String.eqb t "Link"); cbn [orb].
      * destruct (getLinkFieldType_returns l
                    (mkField i t r d o (Some fieldItems) l v) w)
          as (w' & fd & ->).
        destruct r; cbn; eauto.
      * destruct (existsb (String.eqb t) primitiveKinds) eqn:Hkind.
        -- destruct (Map_get_primitive t Hkind) as [handler ->].
           destruct r; cbn; eauto.
        -- rewrite (Map_get_not_primitive t Hkind). cbn. eauto.
Qed.

(** A field is translated exactly when it is a link, of a primitive
    kind, or an array with items that are links or are translated
    themselves; the state has no part in it. *)
Theorem translateFieldType_succeeds_iff (field : FieldDefinition) (w : World) :
  (exists w' d, translateFieldType field w = (w', Return d))
  <-> translatable field = true.
Proof.
  pose proof (translateFieldType_cases field w) as H.
  destruct (translatable field); split; auto; try discriminate.
  intros (w' & d & Hrun). destruct H as (e & He & _). congruence.
Qed.

(** A translation that fails throws a [TypeError] and leaves the
    registry and the declared types as they were. *)
Theorem translateFieldType_failure (field : FieldDefinition)
    (w w' : World) (e : Exception) :
  translateFieldType field w = (w', Throw e) ->
  w' = w /\ class e = TypeError /\ translatable field = false.
Proof.
  intros Hrun. pose proof (translateFieldType_cases field w) as H.
  destruct (translatable field).
  - destruct H as (w1 & d & Hok). congruence.
  - destruct H as (e1 & He1 & Hclass).
    rewrite He1 in Hrun. injection Hrun as <- <-. auto.
Qed.

(** *** The required marker *)

Lemma Map_get_In {V : Type} (m : StringMap V) (k : string) (v : V) :
  Map_get m k = Some v -> In (k, v) m.
Proof.
  induction m as [|[k0 v0] m IH]; cbn [Map_get]; [discriminate |].
  destruct (String.eqb_spec k0 k) as [-> | Hne].
  - intros H. injection H as ->. now left.
  - intros H. right. now apply IH.
Qed.

(** The entries of the table read nothing of a field but its id. *)
Lemma handler_reads_id (kind : string)
    (handler : FieldDefinition -> TypeDescriptor) (f f' : FieldDefinition) :
  Map_get ContentfulDataTypes kind = Some handler ->
  id f = id f' -> handler f = handler f'.
Proof.
  intros Hget Hid. apply Map_get_In in Hget. cbn in Hget.
  repeat (destruct Hget as [Hget | Hget];
          [injection Hget as <- <-; unfold nodeLink; now rewrite ?Hid |]).
  destruct Hget.
Qed.

(** Whether a field is required decides whether its type ends in the
    marker and nothing else: the required field is translated as the same
    field not required, with one marker added to the type; the state and
    a failure are the same. *)
Theorem required_adds_one_marker (field : FieldDefinition) (w : World) :
  translateFieldType (withRequired true field) w
  = match translateFieldType (withRequired false field) w with
    | (w', Return d) =>
        (w', Return {| typeExpr := typeExpr d +:+ "!";
                       extensions := extensions d |})
    | (w', Throw e) => (w', Throw e)
    end.
Proof.
  destruct field as [i t r d o it l v].
  rewrite !translateFieldType_unfold. unfold withRequired.
  cbn [type items required Schema.linkType id disabled omitted validations].
  unfold bind.
  destruct (String.eqb t "Array").
  - destruct it as [fieldItems|]; [| reflexivity].
    destruct (String.eqb (type fieldItems) "Link").
    + change (getLinkFieldType (Schema.linkType fieldItems)
                (mkField i t true d o (Some fieldItems) l v) w)
        with (getLinkFieldType (Schema.linkType fieldItems)
                (mkField i t false d o (Some fieldItems) l v) w).
      destruct (getLinkFieldType _ _ w) as [w' [fd|e]]; reflexivity.
    + destruct (translateFieldType fieldItems w) as [w' [fd|e]]; reflexivity.
  - destruct (String.eqb t "Link").
    + change (getLinkFieldType l (mkField i t true d o it l v) w)
        with (getLinkFieldType l (mkField i t false d o it l v) w).
      destruct (getLinkFieldType _ _ w) as [w' [fd|e]]; reflexivity.
    + destruct (Map_get ContentfulDataTypes t) as [handler|] eqn:Hget;
        [| reflexivity].
      cbn. now rewrite (handler_reads_id t handler
                          (mkField i t true d o it l v)
                          (mkField i t false d o it l v) Hget eq_refl).
Qed.

(** *** What the link translator reads *)

(** The link translator reads three things: the link type, the id of
    the field and the content types of the first validation under
    [items.validations] with a truthy [linkContentType]. A bare name is
    the list of that name; other validations and anything else of the
    field have no effect. *)
Theorem getLinkFieldType_reads (linkType : option string)
    (field field' : FieldDefinition) (w : World) :
  id field = id field' ->
  linkContentTypes field = linkContentTypes field' ->
  getLinkFieldType linkType field w = getLinkFieldType linkType field' w.
Proof.
  intros Hid Hcts.
  assert (nodeLink field = nodeLink field') as Hlink
    by (unfold nodeLink; now rewrite Hid).
  destruct (linkContentTypes field) as [cts|] eqn:Hfield; symmetry in Hcts.
  - destruct (Nat.eqb_spec (length cts) 1) as [Hlen | Hlen].
    + destruct cts as [|t [|]]; try discriminate Hlen.
      rewrite (getLinkFieldType_single _ _ _ _ Hfield),
              (getLinkFieldType_single _ _ _ _ Hcts). now rewrite Hlink.
    + rewrite (getLinkFieldType_union _ _ _ _ Hfield Hlen),
              (getLinkFieldType_union _ _ _ _ Hcts Hlen). now rewrite Hlink.
  - rewrite (getLinkFieldType_fallback _ _ _ Hfield),
            (getLinkFieldType_fallback _ _ _ Hcts). now rewrite Hlink.
Qed.

(** An array of links without a validation that names content types is
    a list of the generic type of its link type; nothing is declared. *)
Theorem array_of_links_generic_type (field fieldItems : FieldDefinition)
    (w : World) :
  type field = "Array" ->
  items field = Some fieldItems ->
  type fieldItems = "Link" ->
  linkContentTypes field = None ->
  translateFieldType field w
  = (w, Return {| typeExpr :=
                    if required field
                    then ("[" +:+ ("Contentful" +:+ interpolate (linkType fieldItems))
                          +:+ "]") +:+ "!"
                    else "[" +:+ ("Contentful" +:+ interpolate (linkType fieldItems))
                         +:+ "]";
                  extensions := Some (LinkExtension
                    {| link_by := "id";
                       link_from := interpolate (id field) +:+ "___NODE" |}) |}).
Proof.
  intros Htype Hitems Hkind Hcts.
  rewrite (translateFieldType_array_eq field fieldItems w Htype Hitems).
  rewrite Hkind. cbn [String.eqb Ascii.eqb Bool.eqb].
  now rewrite (getLinkFieldType_fallback _ _ _ Hcts).
Qed.

(** An array of links whose validation names no, two or more content
    types is a list of the union named after their compact names; the
    union is registered and declared, with the full names as members,
    unless its name is registered already. *)
Theorem array_of_links_union_type (field fieldItems : FieldDefinition)
    (cts : list string) (w : World) :
  type field = "Array" ->
  items field = Some fieldItems ->
  type fieldItems = "Link" ->
  linkContentTypes field = Some cts ->
  length cts <> 1 ->
  translateFieldType field w
  = (if bool_decide (unionNameOf (shortNames cts) ∈ unionsNameSet w) then w
     else {| unionsNameSet := {[ unionNameOf (shortNames cts) ]} ∪ unionsNameSet w;
             declared :=
               declared w
               ++ [UnionType (unionNameOf (shortNames cts)) (fullNames cts)] |},
     Return {| typeExpr :=
                 if required field
                 then ("[" +:+ unionNameOf (shortNames cts) +:+ "]") +:+ "!"
                 else "[" +:+ unionNameOf (shortNames cts) +:+ "]";
               extensions := Some (LinkExtension
                 {| link_by := "id";
                    link_from := interpolate (id field) +:+ "___NODE" |}) |}).
Proof.
  intros Htype Hitems Hkind Hcts Hlen.
  rewrite (translateFieldType_array_eq field fieldItems w Htype Hitems).
  rewrite Hkind. cbn [String.eqb Ascii.eqb Bool.eqb].
  now rewrite (getLinkFieldType_union _ _ _ _ Hcts Hlen).
Qed.

(** *** The state over a whole run *)

Lemma extends_refl (w : World) : extends w w.
Proof. split; [exists []; now rewrite app_nil_r | reflexivity]. Qed.

Lemma extends_trans (w1 w2 w3 : World) :
  extends w1 w2 -> extends w2 w3 -> extends w1 w3.
Proof.
  intros [[a1 H1] S1] [[a2 H2] S2]. split.
  - exists (a1 ++ a2). now rewrite H2, H1, app_assoc.
  - now transitivity (unionsNameSet w2).
Qed.

Lemma createTypes_extends (t : TypeDef) (w : World) :
  extends w (createTypes t w).1.
Proof. split; [now exists [t] | reflexivity]. Qed.

Lemma getLinkFieldType_extends (linkType : option string)
    (field : FieldDefinition) (w : World) :
  extends w (getLinkFieldType linkType field w).1.
Proof.
  rewrite getLinkFieldType_world.
  destruct (linkContentTypes field) as [cts|]; [| apply extends_refl].
  destruct (Nat.eqb (length cts) 1); [apply extends_refl |].
  unfold Schema.registerUnion. cbv zeta.
  case_bool_decide; [apply extends_refl |].
  split; cbn; [eauto | apply union_subseteq_r].
Qed.

(** What holds between the state before and after every call of the
    link translator holds between the state before and after the
    translation of a field. *)
Lemma translateFieldType_world_ind (R : World -> World -> Prop) :
  (forall w, R w w) ->
  (forall linkType field w, R w (getLinkFieldType linkType field w).1) ->
  forall field w, R w (translateFieldType field w).1.
Proof.
  intros Hrefl Hlink field.
  induction field as [i t r d o l v | i t r d o fieldItems l v IH]
    using FieldDefinition_induction; intros w;
    rewrite translateFieldType_unfold; cbn [type items required Schema.linkType];
    unfold bind.
  - destruct (String.eqb t "Array"); [apply Hrefl |].
    destruct (String.eqb t "Link").
    + pose proof (Hlink l (mkField i t r d o None l v) w) as Hstep.
      destruct (getLinkFieldType _ _ w) as [w' [fd|e]]; [destruct r |]; exact Hstep.
    + destruct (Map_get ContentfulDataTypes t); [destruct r |]; apply Hrefl.
  - destruct (String.eqb t "Array").
    + destruct (String.eqb (type fieldItems) "Link").
      * pose proof (Hlink (Schema.linkType fieldItems)
                      (mkField i t r d o (Some fieldItems) l v) w) as Hstep.
        destruct (getLinkFieldType _ _ w) as [w' [fd|e]]; [destruct r |];
          exact Hstep.
      * specialize (IH w).
        destruct (translateFieldType fieldItems w) as [w' [fd|e]]; [destruct r |];
          exact IH.
    + destruct (String.eqb t "Link").
      * pose proof (Hlink l (mkField i t r d o (Some fieldItems) l v) w) as Hstep.
        destruct (getLinkFieldType _ _ w) as [w' [fd|e]]; [destruct r |];
          exact Hstep.
      * destruct (Map_get ContentfulDataTypes t); [destruct r |]; apply Hrefl.
Qed.

Lemma translateFields_world_ind (R : World -> World -> Prop) :
  (forall w, R w w) ->
  (forall w1 w2 w3, R w1 w2 -> R w2 w3 -> R w1 w3) ->
  (forall linkType field w, R w (getLinkFieldType linkType field w).1) ->
  forall l acc w, R w (translateFields l acc w).1.
Proof.
  intros Hrefl Htrans Hlink l.
  induction l as [|g l IH]; intros acc w; [apply Hrefl |].
  cbn [Schema.translateFields].
  destruct (disabled g || omitted g); [apply IH |].
  unfold bind.
  pose proof (translateFieldType_world_ind R Hrefl Hlink g w) as Hstep.
  destruct (translateFieldType g w) as [w1 [fd|e]]; cbn [fst] in Hstep;
    [| exact Hstep].
  apply (Htrans _ _ _ Hstep), IH.
Qed.

Lemma generateContentTypes_world_ind (R : World -> World -> Prop)
    (useNameForId : bool) :
  (forall w, R w w) ->
  (forall w1 w2 w3, R w1 w2 -> R w2 w3 -> R w1 w3) ->
  (forall contentTypeItem w,
     R w (generateContentType useNameForId contentTypeItem w).1) ->
  forall contentTypeItems w,
    R w (generateContentTypes useNameForId contentTypeItems w).1.
Proof.
  intros Hrefl Htrans Hitem l.
  induction l as [|item l IH]; intros w; [apply Hrefl |].
  cbn [Schema.generateContentTypes]. unfold bind.
  pose proof (Hitem item w) as Hstep.
  destruct (generateContentType useNameForId item w) as [w1 [[]|e]];
    cbn [fst] in Hstep; [| exact Hstep].
  apply (Htrans _ _ _ Hstep), IH.
Qed.

Lemma genericTypes_run (w : World) :
  genericTypes w
  = ({| unionsNameSet := unionsNameSet w;
        declared := declared w ++ fixedTypes |}, Return tt).
Proof.
  unfold genericTypes, generateAssetTypes, bind, createTypes, fixedTypes.
  cbn [unionsNameSet declared]. now rewrite <- !app_assoc.
Qed.

Lemma generateContentType_extends (useNameForId : bool)
    (contentTypeItem : ContentTypeItem) (w : World) :
  extends w (generateContentType useNameForId contentTypeItem w).1.
Proof.
  unfold Schema.generateContentType, tryCatch, bind.
  pose proof (translateFields_world_ind extends extends_refl extends_trans
                getLinkFieldType_extends (fields contentTypeItem) ∅ w) as Hstep.
  destruct (translateFields (fields contentTypeItem) ∅ w) as [w1 [m|e]];
    cbn [fst] in Hstep; [| exact Hstep].
  apply (extends_trans _ _ _ Hstep), createTypes_extends.
Qed.

(** [generateSchema] only adds: whether it returns or throws, the types
    declared before it are still declared, first and in their order, and
    every registered union name is still registered. *)
Theorem generateSchema_only_adds (useNameForId : bool)
    (contentTypeItems : list ContentTypeItem) (w : World) :
  (exists added,
     declared (generateSchema useNameForId contentTypeItems w).1
     = declared w ++ added)
  /\ unionsNameSet w
     ⊆ unionsNameSet (generateSchema useNameForId contentTypeItems w).1.
Proof.
  unfold Schema.generateSchema, bind. rewrite genericTypes_run.
  apply (extends_trans _ {| unionsNameSet := unionsNameSet w;
                            declared := declared w ++ fixedTypes |}).
  - split; cbn; [eauto | reflexivity].
  - apply (generateContentTypes_world_ind extends useNameForId
             extends_refl extends_trans (generateContentType_extends useNameForId)).
Qed.

Lemma createTypes_object_ok (n : string) (fs : gmap string FieldConfig)
    (interfaces : list string) (dontInfer : bool) (w : World) :
  registryOk w -> registryOk (createTypes (ObjectType n fs interfaces dontInfer) w).1.
Proof.
  intros [Hnodup Hsame].
  split; cbn [createTypes fst declared unionsNameSet];
    rewrite unionNames_app; cbn [unionNames]; now rewrite app_nil_r.
Qed.

Lemma generateContentType_ok (useNameForId : bool)
    (contentTypeItem : ContentTypeItem) (w : World) :
  registryOk w ->
  registryOk (generateContentType useNameForId contentTypeItem w).1.
Proof.
  unfold Schema.generateContentType, tryCatch, bind.
  pose proof (translateFields_world_ind
                (fun w w' => registryOk w -> registryOk w')
                (fun _ H => H) (fun _ _ _ H1 H2 H => H2 (H1 H))
                getLinkFieldType_ok (fields contentTypeItem) ∅ w) as Hstep.
  destruct (translateFields (fields contentTypeItem) ∅ w) as [w1 [m|e]];
    cbn [fst] in Hstep; [| exact Hstep].
  intros Hok. now apply createTypes_object_ok, Hstep.
Qed.

(** [generateSchema] keeps the registry and the declarations in step:
    when before it no union is declared twice and the registered names
    are the names of the declared unions, the same holds after it,
    whether it returns or throws. *)
Theorem generateSchema_keeps_registry (useNameForId : bool)
    (contentTypeItems : list ContentTypeItem) (w : World) :
  registryOk w ->
  registryOk (generateSchema useNameForId contentTypeItems w).1.
Proof.
  intros [Hnodup Hsame]. unfold Schema.generateSchema, bind.
  rewrite genericTypes_run.
  apply (generateContentTypes_world_ind
           (fun w w' => registryOk w -> registryOk w') useNameForId
           (fun _ H => H) (fun _ _ _ H1 H2 H => H2 (H1 H))
           (generateContentType_ok useNameForId)).
  split; cbn [declared unionsNameSet]; rewrite unionNames_app;
    change (unionNames fixedTypes) with (@nil string); now rewrite app_nil_r.
Qed.

(** *** The object types of a run *)





(** *** The keys of the field map *)

Lemma translateFields_dom (l : list FieldDefinition) :
  forall (acc : gmap string TypeDescriptor) w w' m,
  translateFields l acc w = (w', Return m) ->
  dom m = dom acc ∪ list_to_set (propertyKeys l).
Proof.
  unfold propertyKeys.
  induction l as [|g l IH]; intros acc w w' m Hrun.
  - injection Hrun as <- <-. cbn. set_solver.
  - cbn [Schema.translateFields List.filter] in *. unfold enabled at 1.
    destruct (disabled g || omitted g); cbn [negb].
    + now apply (IH _ _ _ _ Hrun).
    + unfold bind in Hrun.
      destruct (translateFieldType g w) as [w1 [fd|e]]; [| discriminate Hrun].
      rewrite (IH _ _ _ _ Hrun). cbn [map List.filter].
      unfold fieldKey at 2. unfold setProperty.
      destruct (String.eqb (interpolate (id g)) "__proto__"); cbn [negb];
        [reflexivity |].
      rewrite dom_insert_L. cbn [list_to_set]. set_solver.
Qed.

(** The fields of a declared content type are [id], [sys] and one for
    the id of each enabled field other than [__proto__], and no other.
    Unless an enabled field has the id [id] (or [sys]), that entry is the
    fixed one. *)
Theorem object_fields_keys (l : list FieldDefinition)
    (w w' : World) (m : gmap string TypeDescriptor) :
  translateFields l ∅ w = (w', Return m) ->
  dom (objectFields m)
  = {[ "id" ]} ∪ {[ "sys" ]} ∪ list_to_set (propertyKeys l)
  /\ (~ In "id" (propertyKeys l) ->
      objectFields m !! "id" = Some (Config (plain "ID!") None))
  /\ (~ In "sys" (propertyKeys l) ->
      objectFields m !! "sys" = Some (Config (plain "ContentfulInternalSys") None))
  /\ objectFields m !! "__proto__" = None.
Proof.
  intros Hrun. pose proof (translateFields_dom _ _ _ _ _ Hrun) as Hdom.
  rewrite dom_empty_L, union_empty_l_L in Hdom.
  assert (forall k, ~ In k (propertyKeys l) -> m !! k = None) as Hout.
  { intros k Hk. apply not_elem_of_dom. rewrite Hdom.
    rewrite elem_of_list_to_set, list_elem_of_In. exact Hk. }
  split; [| split; [| split]].
  - unfold objectFields.
    rewrite dom_union_L, dom_fmap_L, dom_insert_L, dom_singleton_L, Hdom.
    set_solver.
  - intros Hk. unfold objectFields.
    rewrite lookup_union_r by (now rewrite lookup_fmap, (Hout _ Hk)).
    reflexivity.
  - intros Hk. unfold objectFields.
    rewrite lookup_union_r by (now rewrite lookup_fmap, (Hout _ Hk)).
    reflexivity.
  - assert (~ In "__proto__" (propertyKeys l)) as Hk.
    { unfold propertyKeys. rewrite filter_In. intros [_ Hno]. discriminate Hno. }
    unfold objectFields.
    rewrite lookup_union_r by (now rewrite lookup_fmap, (Hout _ Hk)).
    reflexivity.
Qed.

(** *** When a run returns *)

Lemma translateFields_outcome (l : list FieldDefinition) :
  forall acc w,
  if fieldsTranslatable l
  then exists w' m, translateFields l acc w = (w', Return m)
  else exists w' e, translateFields l acc w = (w', Throw e) /\ class e = TypeError.
Proof.
  induction l as [|g l IH]; intros acc w; [cbn; eauto |].
  cbn [fieldsTranslatable forallb Schema.translateFields]. unfold enabled at 1.
  destruct (disabled g || omitted g); cbn [negb orb andb].
  - apply IH.
  - unfold bind. pose proof (translateFieldType_cases g w) as Hstep.
    destruct (translatable g); cbn [andb].
    + destruct Hstep as (w1 & fd & ->). apply IH.
    + destruct Hstep as (e & -> & He). eauto.
Qed.

Lemma fieldsTranslatable_false (l : list FieldDefinition) :
  fieldsTranslatable l = false ->
  exists g, In g l /\ enabled g = true /\ translatable g = false.
Proof.
  induction l as [|g l IH]; [discriminate |].
  cbn [fieldsTranslatable forallb].
  destruct (enabled g) eqn:Hon; cbn [negb orb].
  - destruct (translatable g) eqn:Hg; cbn [andb].
    + intros H. destruct (IH H) as (g' & Hin & Hg'). exists g'. split; [now right | exact Hg'].
    + intros _. exists g. repeat split; auto. now left.
  - intros H. destruct (IH H) as (g' & Hin & Hg'). exists g'. split; [now right | exact Hg'].
Qed.

Lemma fieldsTranslatable_true (l : list FieldDefinition) :
  fieldsTranslatable l = true <->
  forall g, In g l -> enabled g = true -> translatable g = true.
Proof.
  unfold fieldsTranslatable. rewrite forallb_forall. split.
  - intros H g Hin Hon. specialize (H g Hin). now rewrite Hon in H.
  - intros H g Hin. destruct (enabled g) eqn:Hon; [| reflexivity].
    cbn. now apply H.
Qed.

Lemma generateContentType_outcome (useNameForId : bool)
    (contentTypeItem : ContentTypeItem) (w : World) :
  if fieldsTranslatable (fields contentTypeItem)
  then exists w', generateContentType useNameForId contentTypeItem w = (w', Return tt)
  else exists w' e,
         generateContentType useNameForId contentTypeItem w
         = (w', Throw (annotate contentTypeItem e))
         /\ class e = TypeError.
Proof.
  unfold Schema.generateContentType, tryCatch, bind.
  pose proof (translateFields_outcome (fields contentTypeItem) ∅ w) as Hstep.
  destruct (fieldsTranslatable (fields contentTypeItem)).
  - destruct Hstep as (w1 & m & ->). cbn. eauto.
  - destruct Hstep as (w1 & e & -> & He). cbn. eauto.
Qed.

Lemma generateContentTypes_outcome (useNameForId : bool)
    (contentTypeItems : list ContentTypeItem) :
  forall w,
  match (generateContentTypes useNameForId contentTypeItems w).2 with
  | Return _ =>
      forall item, In item contentTypeItems ->
                   fieldsTranslatable (fields item) = true
  | Throw e =>
      exists before failed after e0,
        contentTypeItems = before ++ failed :: after
        /\ (forall item, In item before -> fieldsTranslatable (fields item) = true)
        /\ fieldsTranslatable (fields failed) = false
        /\ e = annotate failed e0 /\ class e0 = TypeError
  end.
Proof.
  induction contentTypeItems as [|item l IH]; intros w; [intros item [] |].
  cbn [Schema.generateContentTypes]. unfold bind.
  pose proof (generateContentType_outcome useNameForId item w) as Hstep.
  destruct (fieldsTranslatable (fields item)) eqn:Hitem.
  - destruct Hstep as (w1 & ->). specialize (IH w1).
    destruct (generateContentTypes useNameForId l w1) as [w2 [[]|e]]; cbn [snd] in *.
    + intros item' [<- | Hin]; auto.
    + destruct IH as (before & failed & after & e0 & -> & Hbefore & Hrest).
      exists (item :: before), failed, after, e0. split; [reflexivity |].
      split; [| exact Hrest]. intros item' [<- | Hin]; auto.
  - destruct Hstep as (w1 & e & -> & He). cbn [snd].
    exists [], item, l, e. repeat split; auto; intros item' [].
Qed.

(** [generateSchema] returns exactly when every enabled field of every
    content type has a translation; disabled and omitted fields do not
    count. *)
Theorem generateSchema_returns_iff (useNameForId : bool)
    (contentTypeItems : list ContentTypeItem) (w : World) :
  (generateSchema useNameForId contentTypeItems w).2 = Return tt
  <-> forall item g,
        In item contentTypeItems -> In g (fields item) ->
        enabled g = true -> translatable g = true.
Proof.
  unfold Schema.generateSchema, bind. rewrite genericTypes_run.
  pose proof (generateContentTypes_outcome useNameForId contentTypeItems
                {| unionsNameSet := unionsNameSet w;
                   declared := declared w ++ fixedTypes |}) as Hout.
  destruct (generateContentTypes useNameForId contentTypeItems _)
    as [w' [[]|e]]; cbn [snd] in *; split.
  - intros _ item g Hitem. now apply fieldsTranslatable_true, Hout.
  - reflexivity.
  - discriminate.
  - intros Hall.
    destruct Hout as (before & failed & after & e0 & -> & _ & Hfailed & _).
    assert (fieldsTranslatable (fields failed) = true) as Hyes.
    { apply fieldsTranslatable_true. intros g. apply Hall.
      apply in_or_app. right. now left. }
    congruence.
Qed.



(** *** What is thrown *)

Lemma translateFieldType_throws (field : FieldDefinition) :
  forall w w' e,
  translateFieldType field w = (w', Throw e) ->
  e = itemsUndefined \/ e = notAFunction.
Proof.
  induction field as [i t r d o l v | i t r d o fieldItems l v IH]
    using FieldDefinition_induction; intros w w' e;
    rewrite translateFieldType_unfold;
    cbn [type items required Schema.linkType]; unfold bind.
  - destruct (String.eqb t "Array").
    + cbn. intros H. injection H as _ <-. now left.
    + destruct (String.eqb t "Link").
      * destruct (getLinkFieldType_returns l (mkField i t r d o None l v) w)
          as (w1 & fd & ->).
        destruct r; discriminate.
      * destruct (Map_get ContentfulDataTypes t).
        -- destruct r; discriminate.
        -- cbn. intros H. injection H as _ <-. now right.
  - destruct (String.eqb t "Array").
    + destruct (String.eqb (type fieldItems) "Link").
      * destruct (getLinkFieldType_returns (Schema.linkType fieldItems)
                    (mkField i t r d o (Some fieldItems) l v) w)
          as (w1 & fd & ->).
        destruct r; discriminate.
      * specialize (IH w).
        destruct (translateFieldType fieldItems w) as [w1 [fd|e1]].
        -- destruct r; discriminate.
        -- intros H. injection H as _ <-. now apply (IH w1).
    + destruct (String.eqb t "Link").
      * destruct (getLinkFieldType_returns l
                    (mkField i t r d o (Some fieldItems) l v) w)
          as (w1 & fd & ->).
        destruct r; discriminate.
      * destruct (Map_get ContentfulDataTypes t).
        -- destruct r; discriminate.
        -- cbn. intros H. injection H as _ <-. now right.
Qed.

Lemma translateFields_throws (l : list FieldDefinition) :
  forall acc w w' e,
  translateFields l acc w = (w', Throw e) ->
  e = itemsUndefined \/ e = notAFunction.
Proof.
  induction l as [|g l IH]; intros acc w w' e; [discriminate |].
  cbn [Schema.translateFields].
  destruct (disabled g || omitted g); [apply IH |].
  unfold bind.
  destruct (translateFieldType g w) as [w1 [fd|e1]] eqn:Hstep; [apply IH |].
  intros H. injection H as _ <-. exact (translateFieldType_throws _ _ _ _ Hstep).
Qed.

Lemma generateContentTypes_throw (useNameForId : bool)
    (contentTypeItems : list ContentTypeItem) :
  forall w w' e,
  generateContentTypes useNameForId contentTypeItems w = (w', Throw e) ->
  exists before failed after w1 e0,
    contentTypeItems = before ++ failed :: after
    /\ generateContentTypes useNameForId before w = (w1, Return tt)
    /\ translateFields (fields failed) ∅ w1 = (w', Throw e0)
    /\ e = annotate failed e0.
Proof.
  induction contentTypeItems as [|item l IH]; intros w w' e; [discriminate |].
  cbn [Schema.generateContentTypes]. unfold bind.
  destruct (generateContentType useNameForId item w) as [w1 [[]|e1]] eqn:Hitem.
  - intros Hrest.
    destruct (IH _ _ _ Hrest) as (before & failed & after & w2 & e0 & -> & Hbefore
                                  & Hfailed & ->).
    exists (item :: before), failed, after, w2, e0.
    split; [reflexivity |]. split; [| now split].
    cbn [Schema.generateContentTypes]. unfold bind. now rewrite Hitem.
  - intros H. injection H as <- <-.
    unfold Schema.generateContentType, tryCatch, bind in Hitem.
    destruct (translateFields (fields item) ∅ w) as [w2 [m|e0]] eqn:Hfields;
      [discriminate Hitem |].
    cbn in Hitem. injection Hitem as <- <-.
    exists [], item, l, w, e0. now repeat split.
Qed.

(** When [generateSchema] throws, the content types in front of some
    content type were generated, the translation of that content type's
    fields threw, and what is thrown is that exception, a [TypeError] of
    the runtime, with the same class and with its message put after
    ["Unable to create schema for Contentful Content Type "], the content
    type's name (or id), a colon and a newline. The content type is the
    first that has an enabled field without a translation, and the state
    is the one the failed translation left. *)
Theorem generateSchema_throw_names_first (useNameForId : bool)
    (contentTypeItems : list ContentTypeItem) (w w' : World) (e : Exception) :
  generateSchema useNameForId contentTypeItems w = (w', Throw e) ->
  exists before failed after w1 e0 g,
    contentTypeItems = before ++ failed :: after
    /\ generateSchema useNameForId before w = (w1, Return tt)
    /\ translateFields (fields failed) ∅ w1 = (w', Throw e0)
    /\ (e0 = itemsUndefined \/ e0 = notAFunction)
    /\ (forall item g',
          In item before -> In g' (fields item) ->
          enabled g' = true -> translatable g' = true)
    /\ In g (fields failed) /\ enabled g = true /\ translatable g = false
    /\ class e = class e0
    /\ class e = TypeError
    /\ message e
       = "Unable to create schema for Contentful Content Type "
         +:+ displayName failed +:+ ":" +:+ newline +:+ message e0.
Proof.
  unfold Schema.generateSchema, bind. rewrite !genericTypes_run.
  intros Hrun.
  destruct (generateContentTypes_throw _ _ _ _ _ Hrun)
    as (before & failed & after & w1 & e0 & Hsplit & Hbefore & Hfailed & ->).
  pose proof (generateContentTypes_outcome useNameForId before
                {| unionsNameSet := unionsNameSet w;
                   declared := declared w ++ fixedTypes |}) as Hout.
  rewrite Hbefore in Hout. cbn [snd] in Hout.
  pose proof (translateFields_outcome (fields failed) ∅ w1) as Hcase.
  destruct (fieldsTranslatable (fields failed)) eqn:Hno.
  { destruct Hcase as (w2 & m & Hok). congruence. }
  destruct (fieldsTranslatable_false _ Hno) as (g & Hin & Hon & Hg).
  pose proof (translateFields_throws _ _ _ _ _ Hfailed) as Hshape.
  exists before, failed, after, w1, e0, g.
  split; [assumption |]. split; [exact Hbefore |].
  split; [assumption |]. split; [assumption |]. split.
  { intros item g' Hitem. now apply fieldsTranslatable_true, Hout. }
  repeat split; auto.
  destruct Hshape as [-> | ->]; reflexivity.
Qed.

End Translation.

(** C6, as written, fails for an array of links. The required link items
    alone translate to [ContentfulEntry!] with the foreign key of a field
    without id; the array [refs] of them is [[ContentfulEntry]] with the
    foreign key [refs___NODE], not the items' translation in brackets. *)
Lemma array_of_links_not_items_translation :
  translateFieldType exampleTypeName
    {| id := Some "refs"; type := "Array"; required := false;
       disabled := false; omitted := false;
       items := Some {| id := None; type := "Link"; required := true;
                        disabled := false; omitted := false; items := None;
                        linkType := Some "Entry"; validations := None |};
       linkType := None; validations := None |}
    emptyWorld
  = (emptyWorld,
     Return {| typeExpr := "[ContentfulEntry]";
               extensions := Some (LinkExtension
                 {| link_by := "id"; link_from := "refs___NODE" |}) |})
  /\ arrayOf false
       (translateFieldType exampleTypeName
          {| id := None; type := "Link"; required := true;
             disabled := false; omitted := false; items := None;
             linkType := Some "Entry"; validations := None |}
          emptyWorld)
     = (emptyWorld,
        Return {| typeExpr := "[ContentfulEntry!]";
                  extensions := Some (LinkExtension
                    {| link_by := "id"; link_from := "undefined___NODE" |}) |}).
Proof. split; reflexivity. Qed.

(** C6 on a required array of required symbols: [[String!]!]. *)
Lemma translateFieldType_array_witness :
  translateFieldType exampleTypeName
    {| id := Some "tags"; type := "Array"; required := true;
       disabled := false; omitted := false;
       items := Some {| id := None; type := "Symbol"; required := true;
                        disabled := false; omitted := false; items := None;
                        linkType := None; validations := None |};
       linkType := None; validations := None |}
    emptyWorld
  = (emptyWorld, Return {| typeExpr := "[String!]!"; extensions := None |}).
Proof.
  rewrite (proj1 (translateFieldType_array exampleTypeName
    {| id := Some "tags"; type := "Array"; required := true;
       disabled := false; omitted := false;
       items := Some {| id := None; type := "Symbol"; required := true;
                        disabled := false; omitted := false; items := None;
                        linkType := None; validations := None |};
       linkType := None; validations := None |}
    {| id := None; type := "Symbol"; required := true;
       disabled := false; omitted := false; items := None;
       linkType := None; validations := None |}
    emptyWorld eq_refl eq_refl)).
  - reflexivity.
  - simpl. discriminate.
Defined.

(** C8 on a field of the kind [Markdown]. *)
Lemma translateFieldType_unknown_kind_witness :
  translateFieldType exampleTypeName
    {| id := Some "body"; type := "Markdown"; required := false;
       disabled := false; omitted := false; items := None;
       linkType := None; validations := None |}
    emptyWorld
  = (emptyWorld, Throw notAFunction).
Proof.
  apply translateFieldType_unknown_kind.
  - simpl. discriminate.
  - simpl. discriminate.
  - simpl. intros H.
    repeat (destruct H as [H | H]; [discriminate H |]). destruct H.
Defined.

(** C7, as written, fails for a member set given in two orders: the
    arrays of links to [a] or [b] and to [b] or [a], translated one after
    the other, leave two unions of the same two members declared. *)
Lemma same_members_two_unions :
  declared
    (translateFieldType exampleTypeName
       {| id := Some "second"; type := "Array"; required := false;
          disabled := false; omitted := false;
          items := Some {| id := None; type := "Link"; required := false;
                           disabled := false; omitted := false; items := None;
                           linkType := Some "Entry";
                           validations := Some [ {| linkContentType :=
                             Some (LctArray ["b"; "a"]) |} ] |};
          linkType := None; validations := None |}
       (translateFieldType exampleTypeName
          {| id := Some "first"; type := "Array"; required := false;
             disabled := false; omitted := false;
             items := Some {| id := None; type := "Link"; required := false;
                              disabled := false; omitted := false; items := None;
                              linkType := Some "Entry";
                              validations := Some [ {| linkContentType :=
                                Some (LctArray ["a"; "b"]) |} ] |};
             linkType := None; validations := None |}
          emptyWorld).1).1
  = [ UnionType "UnionContentfulAB"
        ["ContentfulContentTypeA"; "ContentfulContentTypeB"];
      UnionType "UnionContentfulBA"
        ["ContentfulContentTypeB"; "ContentfulContentTypeA"] ].
Proof. vm_compute. reflexivity. Qed.

(** C7 on an array of links to [a] or [aA] and one to [aA] or [a], from
    the empty state: the two lists give one name. *)
Lemma union_declared_once_witness :
  exists w1,
    getLinkFieldType exampleTypeName (Some "Entry")
      {| id := Some "first"; type := "Array"; required := false;
         disabled := false; omitted := false;
         items := Some {| id := None; type := "Link"; required := false;
                          disabled := false; omitted := false; items := None;
                          linkType := Some "Entry";
                          validations := Some [ {| linkContentType :=
                            Some (LctArray ["a"; "aA"]) |} ] |};
         linkType := None; validations := None |}
      emptyWorld
    = (w1, Return {| typeExpr := "UnionContentfulAAA";
                     extensions := Some (LinkExtension
                       {| link_by := "id"; link_from := "first___NODE" |}) |})
    /\ getLinkFieldType exampleTypeName (Some "Entry")
      {| id := Some "second"; type := "Array"; required := true;
         disabled := false; omitted := false;
         items := Some {| id := None; type := "Link"; required := false;
                          disabled := false; omitted := false; items := None;
                          linkType := Some "Entry";
                          validations := Some [ {| linkContentType :=
                            Some (LctArray ["aA"; "a"]) |} ] |};
         linkType := None; validations := None |}
      w1
    = (w1, Return {| typeExpr := "UnionContentfulAAA";
                     extensions := Some (LinkExtension
                       {| link_by := "id"; link_from := "second___NODE" |}) |})
    /\ count_occ String.string_dec (unionNames (declared w1)) "UnionContentfulAAA" = 1
    /\ ("UnionContentfulAAA" ∉ unionsNameSet emptyWorld ->
        declared w1
        = declared emptyWorld
          ++ [UnionType "UnionContentfulAAA"
                ["ContentfulContentTypeA"; "ContentfulContentTypeAA"]]).
Proof.
  apply (proj2 (union_declared_once exampleTypeName) (Some "Entry") (Some "Entry")
    {| id := Some "first"; type := "Array"; required := false;
       disabled := false; omitted := false;
       items := Some {| id := None; type := "Link"; required := false;
                        disabled := false; omitted := false; items := None;
                        linkType := Some "Entry";
                        validations := Some [ {| linkContentType :=
                          Some (LctArray ["a"; "aA"]) |} ] |};
       linkType := None; validations := None |}
    {| id := Some "second"; type := "Array"; required := true;
       disabled := false; omitted := false;
       items := Some {| id := None; type := "Link"; required := false;
                        disabled := false; omitted := false; items := None;
                        linkType := Some "Entry";
                        validations := Some [ {| linkContentType :=
                          Some (LctArray ["aA"; "a"]) |} ] |};
       linkType := None; validations := None |}
    ["a"; "aA"] ["aA"; "a"] emptyWorld).
  - apply registryOk_empty.
  - reflexivity.
  - reflexivity.
  - simpl. lia.
  - simpl. lia.
  - reflexivity.
Defined.

(** C9 on three content types of which the second has a field of an
    unknown kind and no name. *)
Lemma generateSchema_aborts_witness :
  (generateSchema exampleTypeName false
     [ {| sys_id := "post"; name := Some "Post";
          fields := [ {| id := Some "title"; type := "Symbol"; required := true;
                         disabled := false; omitted := false; items := None;
                         linkType := None; validations := None |} ] |};
       {| sys_id := "page"; name := None;
          fields := [ {| id := Some "body"; type := "Markdown"; required := false;
                         disabled := false; omitted := false; items := None;
                         linkType := None; validations := None |} ] |};
       {| sys_id := "author"; name := Some "Author"; fields := [] |} ]
     emptyWorld).2
  = Throw {| class := TypeError;
             message := "Unable to create schema for Contentful Content Type page:"
                        +:+ newline +:+ message notAFunction |}.
Proof.
  exact (f_equal snd (generateSchema_aborts exampleTypeName false
    [ {| sys_id := "post"; name := Some "Post";
         fields := [ {| id := Some "title"; type := "Symbol"; required := true;
                        disabled := false; omitted := false; items := None;
                        linkType := None; validations := None |} ] |} ]
    [ {| sys_id := "author"; name := Some "Author"; fields := [] |} ]
    {| sys_id := "page"; name := None;
       fields := [ {| id := Some "body"; type := "Markdown"; required := false;
                      disabled := false; omitted := false; items := None;
                      linkType := None; validations := None |} ] |}
    emptyWorld _ _ notAFunction eq_refl eq_refl)).
Defined.

(** C10, as written, fails for the id [__proto__]: a content type that
    declares two enabled fields of that id is generated without an error,
    but the assignments make no property, the field map stays empty and
    the declared object type has no entry for the id. *)
Lemma duplicate_proto_id_no_entry :
  translateFields exampleTypeName
    [ {| id := Some "__proto__"; type := "Symbol"; required := false;
         disabled := false; omitted := false; items := None;
         linkType := None; validations := None |};
      {| id := Some "__proto__"; type := "Integer"; required := false;
         disabled := false; omitted := false; items := None;
         linkType := None; validations := None |} ]
    ∅ emptyWorld
  = (emptyWorld, Return ∅)
  /\ generateContentType exampleTypeName false
       {| sys_id := "post"; name := Some "Post";
          fields :=
            [ {| id := Some "__proto__"; type := "Symbol"; required := false;
                 disabled := false; omitted := false; items := None;
                 linkType := None; validations := None |};
              {| id := Some "__proto__"; type := "Integer"; required := false;
                 disabled := false; omitted := false; items := None;
                 linkType := None; validations := None |} ] |}
       emptyWorld
     = ({| unionsNameSet := ∅;
           declared :=
             [ObjectType "ContentfulContentTypePost" (objectFields ∅)
                ["ContentfulInternalReference"; "ContentfulEntry"; "Node"]
                true] |},
        Return tt)
  /\ objectFields ∅ !! "__proto__" = None
  /\ List.filter (fun kv => String.eqb kv.1 "__proto__")
       (map_to_list (objectFields ∅))
     = [].
Proof. repeat split. Qed.

(** C10 on a content type whose field [title] is declared twice, first as
    a symbol and then as an integer: the entry is [Int]. *)
Lemma duplicate_id_last_wins_witness :
  exists w' (m : gmap string TypeDescriptor),
    translateFields exampleTypeName
      [ {| id := Some "title"; type := "Symbol"; required := false;
           disabled := false; omitted := false; items := None;
           linkType := None; validations := None |};
        {| id := Some "title"; type := "Integer"; required := false;
           disabled := false; omitted := false; items := None;
           linkType := None; validations := None |} ]
      ∅ emptyWorld
    = (w', Return m)
    /\ m !! "title" = Some {| typeExpr := "Int"; extensions := None |}
    /\ generateContentType exampleTypeName false
         {| sys_id := "post"; name := Some "Post";
            fields :=
              [ {| id := Some "title"; type := "Symbol"; required := false;
                   disabled := false; omitted := false; items := None;
                   linkType := None; validations := None |};
                {| id := Some "title"; type := "Integer"; required := false;
                   disabled := false; omitted := false; items := None;
                   linkType := None; validations := None |} ] |}
         emptyWorld
       = ({| unionsNameSet := unionsNameSet w';
             declared :=
               declared w'
               ++ [ObjectType "ContentfulContentTypePost" (objectFields m)
                     ["ContentfulInternalReference"; "ContentfulEntry"; "Node"]
                     true] |},
          Return tt)
    /\ List.filter (fun kv => String.eqb kv.1 "title")
         (map_to_list (objectFields m))
       = [("title", Config {| typeExpr := "Int"; extensions := None |} None)].
Proof.
  apply (duplicate_id_last_wins exampleTypeName false
    {| sys_id := "post"; name := Some "Post";
       fields :=
         [ {| id := Some "title"; type := "Symbol"; required := false;
              disabled := false; omitted := false; items := None;
              linkType := None; validations := None |};
           {| id := Some "title"; type := "Integer"; required := false;
              disabled := false; omitted := false; items := None;
              linkType := None; validations := None |} ] |}
    [] [] []
    {| id := Some "title"; type := "Symbol"; required := false;
       disabled := false; omitted := false; items := None;
       linkType := None; validations := None |}
    {| id := Some "title"; type := "Integer"; required := false;
       disabled := false; omitted := false; items := None;
       linkType := None; validations := None |}
    {| typeExpr := "Int"; extensions := None |} emptyWorld).
  - reflexivity.
  - reflexivity.
  - reflexivity.
  - reflexivity.
  - simpl. discriminate.
  - intros g [].
  - intros g [<- | [<- | []]] _; eexists; reflexivity.
  - reflexivity.
Defined.

(** An array [authors] of links to [person]. *)
Lemma array_of_links_single_type_witness :
  translateFieldType exampleTypeName
    {| id := Some "authors"; type := "Array"; required := false;
       disabled := false; omitted := false;
       items := Some {| id := None; type := "Link"; required := false;
                        disabled := false; omitted := false; items := None;
                        linkType := Some "Entry";
                        validations := Some [ {| linkContentType :=
                          Some (LctArray ["person"]) |} ] |};
       linkType := None; validations := None |}
    emptyWorld
  = (emptyWorld,
     Return {| typeExpr := "[ContentfulContentTypePerson]";
               extensions := Some (LinkExtension
                 {| link_by := "id"; link_from := "authors___NODE" |}) |}).
Proof.
  apply (array_of_links_single_type exampleTypeName
    {| id := Some "authors"; type := "Array"; required := false;
       disabled := false; omitted := false;
       items := Some {| id := None; type := "Link"; required := false;
                        disabled := false; omitted := false; items := None;
                        linkType := Some "Entry";
                        validations := Some [ {| linkContentType :=
                          Some (LctArray ["person"]) |} ] |};
       linkType := None; validations := None |}
    {| id := None; type := "Link"; required := false;
       disabled := false; omitted := false; items := None;
       linkType := Some "Entry";
       validations := Some [ {| linkContentType :=
         Some (LctArray ["person"]) |} ] |}
    "person" emptyWorld); reflexivity.
Defined.

(** A required field of the kind [Integer]. *)
Lemma primitive_kind_type_witness :
  exists d,
    translateFieldType exampleTypeName
      {| id := Some "count"; type := "Integer"; required := true;
         disabled := false; omitted := false; items := None;
         linkType := None; validations := None |}
      emptyWorld
    = (emptyWorld, Return d)
    /\ typeExpr d = "Int!".
Proof.
  apply (primitive_kind_type exampleTypeName
    {| id := Some "count"; type := "Integer"; required := true;
       disabled := false; omitted := false; items := None;
       linkType := None; validations := None |}
    emptyWorld "Integer" "Int").
  - simpl. auto.
  - reflexivity.
Defined.

(** A content type with a disabled field [draft] and an enabled field
    [title]: the entry found under [title] comes from the enabled one. *)
Lemma translateFields_only_enabled_witness :
  (∅ : gmap string TypeDescriptor) !! "title"
    = Some {| typeExpr := "String"; extensions := None |}
  \/ exists g,
       In g [ {| id := Some "draft"; type := "Symbol"; required := false;
                 disabled := true; omitted := false; items := None;
                 linkType := None; validations := None |};
              {| id := Some "title"; type := "Symbol"; required := false;
                 disabled := false; omitted := false; items := None;
                 linkType := None; validations := None |} ]
       /\ disabled g = false /\ omitted g = false /\ fieldKey g = "title".
Proof.
  apply (translateFields_only_enabled exampleTypeName
    [ {| id := Some "draft"; type := "Symbol"; required := false;
         disabled := true; omitted := false; items := None;
         linkType := None; validations := None |};
      {| id := Some "title"; type := "Symbol"; required := false;
         disabled := false; omitted := false; items := None;
         linkType := None; validations := None |} ]
    ∅ emptyWorld emptyWorld
    (<["title" := {| typeExpr := "String"; extensions := None |}]> ∅)
    "title" {| typeExpr := "String"; extensions := None |}).
  - reflexivity.
  - reflexivity.
Defined.

(** A field that is translated and one that is not. *)
Lemma translateFieldType_failure_witness :
  emptyWorld = emptyWorld
  /\ class notAFunction = TypeError
  /\ translatable
       {| id := Some "tags"; type := "Array"; required := true;
          disabled := false; omitted := false;
          items := Some {| id := None; type := "Markdown"; required := false;
                           disabled := false; omitted := false; items := None;
                           linkType := None; validations := None |};
          linkType := None; validations := None |}
     = false.
Proof.
  apply (translateFieldType_failure exampleTypeName
    {| id := Some "tags"; type := "Array"; required := true;
       disabled := false; omitted := false;
       items := Some {| id := None; type := "Markdown"; required := false;
                        disabled := false; omitted := false; items := None;
                        linkType := None; validations := None |};
       linkType := None; validations := None |}
    emptyWorld emptyWorld notAFunction).
  reflexivity.
Defined.

(** A bare name beside a validation of another shape, and the list of
    that name alone. *)
Lemma getLinkFieldType_reads_witness :
  getLinkFieldType exampleTypeName (Some "Entry")
    {| id := Some "authors"; type := "Array"; required := true;
       disabled := false; omitted := false;
       items := Some {| id := None; type := "Link"; required := false;
                        disabled := false; omitted := false; items := None;
                        linkType := Some "Entry";
                        validations := Some
                          [ {| linkContentType := None |};
                            {| linkContentType := Some (LctString "person") |};
                            {| linkContentType := Some (LctArray ["a"; "b"]) |} ] |};
       linkType := None; validations := None |}
    emptyWorld
  = getLinkFieldType exampleTypeName (Some "Entry")
    {| id := Some "authors"; type := "Array"; required := false;
       disabled := false; omitted := false;
       items := Some {| id := None; type := "Link"; required := false;
                        disabled := false; omitted := false; items := None;
                        linkType := Some "Entry";
                        validations := Some
                          [ {| linkContentType := Some (LctArray ["person"]) |} ] |};
       linkType := None; validations := None |}
    emptyWorld.
Proof.
  apply (getLinkFieldType_reads exampleTypeName); reflexivity.
Defined.

(** An array of links to assets, with an empty name for a validation. *)
Lemma array_of_links_generic_type_witness :
  translateFieldType exampleTypeName
    {| id := Some "images"; type := "Array"; required := true;
       disabled := false; omitted := false;
       items := Some {| id := None; type := "Link"; required := false;
                        disabled := false; omitted := false; items := None;
                        linkType := Some "Asset";
                        validations := Some
                          [ {| linkContentType := Some (LctString "") |} ] |};
       linkType := None; validations := None |}
    emptyWorld
  = (emptyWorld,
     Return {| typeExpr := "[ContentfulAsset]!";
               extensions := Some (LinkExtension
                 {| link_by := "id"; link_from := "images___NODE" |}) |}).
Proof.
  apply (array_of_links_generic_type exampleTypeName
    {| id := Some "images"; type := "Array"; required := true;
       disabled := false; omitted := false;
       items := Some {| id := None; type := "Link"; required := false;
                        disabled := false; omitted := false; items := None;
                        linkType := Some "Asset";
                        validations := Some
                          [ {| linkContentType := Some (LctString "") |} ] |};
       linkType := None; validations := None |}
    {| id := None; type := "Link"; required := false;
       disabled := false; omitted := false; items := None;
       linkType := Some "Asset";
       validations := Some [ {| linkContentType := Some (LctString "") |} ] |}
    emptyWorld); reflexivity.
Defined.

(** An array of links to [a] or [b], from the empty state. *)
Lemma array_of_links_union_type_witness :
  translateFieldType exampleTypeName
    {| id := Some "parts"; type := "Array"; required := false;
       disabled := false; omitted := false;
       items := Some {| id := None; type := "Link"; required := false;
                        disabled := false; omitted := false; items := None;
                        linkType := Some "Entry";
                        validations := Some
                          [ {| linkContentType := Some (LctArray ["a"; "b"]) |} ] |};
       linkType := None; validations := None |}
    emptyWorld
  = ({| unionsNameSet := {[ "UnionContentfulAB" ]} ∪ ∅;
        declared := [UnionType "UnionContentfulAB"
                       ["ContentfulContentTypeA"; "ContentfulContentTypeB"]] |},
     Return {| typeExpr := "[UnionContentfulAB]";
               extensions := Some (LinkExtension
                 {| link_by := "id"; link_from := "parts___NODE" |}) |}).
Proof.
  apply (array_of_links_union_type exampleTypeName
    {| id := Some "parts"; type := "Array"; required := false;
       disabled := false; omitted := false;
       items := Some {| id := None; type := "Link"; required := false;
                        disabled := false; omitted := false; items := None;
                        linkType := Some "Entry";
                        validations := Some
                          [ {| linkContentType := Some (LctArray ["a"; "b"]) |} ] |};
       linkType := None; validations := None |}
    {| id := None; type := "Link"; required := false;
       disabled := false; omitted := false; items := None;
       linkType := Some "Entry";
       validations := Some [ {| linkContentType := Some (LctArray ["a"; "b"]) |} ] |}
    ["a"; "b"] emptyWorld); try reflexivity.
  simpl. lia.
Defined.

(** A run from the empty state that fails at its second content type. *)
Lemma generateSchema_keeps_registry_witness :
  registryOk
    (generateSchema exampleTypeName true
       [ {| sys_id := "post"; name := Some "Post";
            fields := [ {| id := Some "parts"; type := "Array"; required := false;
                           disabled := false; omitted := false;
                           items := Some {| id := None; type := "Link";
                                            required := false; disabled := false;
                                            omitted := false; items := None;
                                            linkType := Some "Entry";
                                            validations := Some
                                              [ {| linkContentType :=
                                                     Some (LctArray ["a"; "b"]) |} ] |};
                           linkType := None; validations := None |} ] |};
         {| sys_id := "page"; name := None;
            fields := [ {| id := Some "body"; type := "Markdown"; required := false;
                           disabled := false; omitted := false; items := None;
                           linkType := None; validations := None |} ] |} ]
       emptyWorld).1.
Proof.
  apply (generateSchema_keeps_registry exampleTypeName).
  apply registryOk_empty.
Defined.

(** A content type with an omitted field [id], an enabled [title] and
    an enabled [__proto__]. *)
Lemma object_fields_keys_witness :
  dom (objectFields (<["title" := {| typeExpr := "String"; extensions := None |}]> ∅))
  = {[ "id" ]} ∪ {[ "sys" ]} ∪ list_to_set ["title"]
  /\ (~ In "id" ["title"] ->
      objectFields (<["title" := {| typeExpr := "String"; extensions := None |}]> ∅)
        !! "id"
      = Some (Config (plain "ID!") None))
  /\ (~ In "sys" ["title"] ->
      objectFields (<["title" := {| typeExpr := "String"; extensions := None |}]> ∅)
        !! "sys"
      = Some (Config (plain "ContentfulInternalSys") None))
  /\ objectFields (<["title" := {| typeExpr := "String"; extensions := None |}]> ∅)
       !! "__proto__"
     = None.
Proof.
  apply (object_fields_keys exampleTypeName
    [ {| id := Some "id"; type := "Symbol"; required := false;
         disabled := false; omitted := true; items := None;
         linkType := None; validations := None |};
      {| id := Some "title"; type := "Symbol"; required := false;
         disabled := false; omitted := false; items := None;
         linkType := None; validations := None |};
      {| id := Some "__proto__"; type := "Integer"; required := false;
         disabled := false; omitted := false; items := None;
         linkType := None; validations := None |} ]
    emptyWorld emptyWorld
    (<["title" := {| typeExpr := "String"; extensions := None |}]> ∅)).
  reflexivity.
Defined.

(** Three content types; the second has an enabled field of an unknown
    kind. *)
Lemma generateSchema_throw_names_first_witness :
  exists before failed after w1 e0 g,
    [ {| sys_id := "post"; name := Some "Post";
         fields := [ {| id := Some "title"; type := "Symbol"; required := true;
                        disabled := false; omitted := false; items := None;
                        linkType := None; validations := None |} ] |};
      {| sys_id := "page"; name := None;
         fields := [ {| id := Some "body"; type := "Markdown"; required := false;
                        disabled := false; omitted := false; items := None;
                        linkType := None; validations := None |} ] |};
      {| sys_id := "author"; name := Some "Author"; fields := [] |} ]
    = before ++ failed :: after
    /\ generateSchema exampleTypeName false before emptyWorld = (w1, Return tt)
    /\ translateFields exampleTypeName (fields failed) ∅ w1
       = ((generateSchema exampleTypeName false
             [ {| sys_id := "post"; name := Some "Post";
                  fields := [ {| id := Some "title"; type := "Symbol";
                                 required := true; disabled := false;
                                 omitted := false; items := None;
                                 linkType := None; validations := None |} ] |} ]
             emptyWorld).1,
          Throw e0)
    /\ (e0 = itemsUndefined \/ e0 = notAFunction)
    /\ (forall item g',
          In item before -> In g' (fields item) ->
          enabled g' = true -> translatable g' = true)
    /\ In g (fields failed) /\ enabled g = true /\ translatable g = false
    /\ TypeError = class e0
    /\ TypeError = TypeError
    /\ "Unable to create schema for Contentful Content Type page:"
       +:+ newline +:+ message notAFunction
       = "Unable to create schema for Contentful Content Type "
         +:+ displayName failed +:+ ":" +:+ newline +:+ message e0.
Proof.
  apply (generateSchema_throw_names_first exampleTypeName false
    [ {| sys_id := "post"; name := Some "Post";
         fields := [ {| id := Some "title"; type := "Symbol"; required := true;
                        disabled := false; omitted := false; items := None;
                        linkType := None; validations := None |} ] |};
      {| sys_id := "page"; name := None;
         fields := [ {| id := Some "body"; type := "Markdown"; required := false;
                        disabled := false; omitted := false; items := None;
                        linkType := None; validations := None |} ] |};
      {| sys_id := "author"; name := Some "Author"; fields := [] |} ]
    emptyWorld
    (generateSchema exampleTypeName false
       [ {| sys_id := "post"; name := Some "Post";
            fields := [ {| id := Some "title"; type := "Symbol";
                           required := true; disabled := false;
                           omitted := false; items := None;
                           linkType := None; validations := None |} ] |} ]
       emptyWorld).1
    {| class := TypeError;
       message := "Unable to create schema for Contentful Content Type page:"
                  +:+ newline +:+ message notAFunction |}).
  reflexivity.
Defined.

(** *** The resolvers of the rich-text links *)

Section Resolvers.

Variable Source : Type.
Variable getRichTextEntityLinks : Source -> string -> EntityLinks.

Abbreviation makeRichTextLinksResolver :=
  (makeRichTextLinksResolver Source getRichTextEntityLinks).

Lemma filter_sublist {A : Type} (f : A -> bool) (l : list A) :
  sublist (List.filter f l) l.
Proof.
  induction l as [|x l IH]; [constructor |].
  cbn [List.filter]. destruct (f x);
    [now apply sublist_skip | now apply sublist_cons].
Qed.

Lemma includes_In (links : list string) (i : string) :
  includes links i = true <-> In i links.
Proof.
  unfold includes. rewrite existsb_exists. split.
  - intros (x & Hin & Heq). apply String.eqb_eq in Heq. now subst x.
  - intros Hin. exists i. split; [assumption | apply String.eqb_refl].
Qed.

Lemma isLinkedNode_spec (entityType : string) (links : list string) (node : Node) :
  isLinkedNode entityType links node = true
  <-> owner node = "gatsby-source-contentful"
      /\ exists nodeSys i,
           sys node = Some nodeSys
           /\ sysId nodeSys = Some i /\ i <> ""
           /\ sysType nodeSys = Some entityType
           /\ In i links.
Proof.
  unfold isLinkedNode. rewrite andb_true_iff, String.eqb_eq.
  split.
  - intros [Howner Hrest]. split; [assumption |].
    destruct (sys node) as [nodeSys|]; [| discriminate].
    destruct (sysId nodeSys) as [i|] eqn:Hid; [| discriminate].
    apply andb_true_iff in Hrest. destruct Hrest as [Hrest Hin].
    apply andb_true_iff in Hrest. destruct Hrest as [Hi Ht].
    destruct (sysType nodeSys) as [t|] eqn:Htype; [| discriminate].
    apply String.eqb_eq in Ht. subst t.
    exists nodeSys, i.
    split; [reflexivity |]. split; [assumption |].
    split; [now apply truthy_true |].
    split; [assumption | now apply includes_In].
  - intros [Howner (nodeSys & i & -> & -> & Hi & -> & Hin)].
    split; [assumption |].
    apply truthy_true in Hi. apply includes_In in Hin.
    now rewrite Hi, Hin, String.eqb_refl.
Qed.

(** A resolver made for [Entry] or for [Asset] does not throw. It
    returns the nodes of the store, in the order of the store, that are
    owned by [gatsby-source-contentful], have a [sys] of the kind asked
    for with a non-empty id, and whose id is among the ids of the links
    of that kind in the source; it returns no other node. For any other
    kind of entity the resolver throws a [TypeError]. *)
Theorem richTextLinks_resolver (nodeType entityType : string)
    (source : Source) (allNodes : list Node) :
  (entityType = "Entry" \/ entityType = "Asset" ->
   exists nodes,
     makeRichTextLinksResolver nodeType entityType source allNodes = Return nodes
     /\ sublist nodes allNodes
     /\ forall node,
          In node nodes
          <-> In node allNodes
              /\ owner node = "gatsby-source-contentful"
              /\ exists nodeSys i,
                   sys node = Some nodeSys
                   /\ sysId nodeSys = Some i /\ i <> ""
                   /\ sysType nodeSys = Some entityType
                   /\ In i (map entity_id
                              (if String.eqb entityType "Entry"
                               then Entry (getRichTextEntityLinks source nodeType)
                               else Asset (getRichTextEntityLinks source nodeType))))
  /\ (entityType <> "Entry" -> entityType <> "Asset" ->
      exists e,
        makeRichTextLinksResolver nodeType entityType source allNodes = Throw e
        /\ class e = TypeError).
Proof.
  unfold Schema.makeRichTextLinksResolver, entityLinksOf. split.
  - intros Hkind.
    exists (List.filter
              (isLinkedNode entityType
                 (map entity_id
                    (if String.eqb entityType "Entry"
                     then Entry (getRichTextEntityLinks source nodeType)
                     else Asset (getRichTextEntityLinks source nodeType))))
              allNodes).
    split; [| split].
    + destruct Hkind as [-> | ->]; reflexivity.
    + apply filter_sublist.
    + intros node. rewrite filter_In, isLinkedNode_spec. reflexivity.
  - intros HnotEntry HnotAsset.
    apply String.eqb_neq in HnotEntry, HnotAsset.
    rewrite HnotEntry, HnotAsset. eauto.
Qed.

End Resolvers.

(** A source with a link to the entry [e1], and a store of four nodes:
    the entry [e1], an entry that is not linked, an asset of the same id,
    and a node of another plugin. *)
Lemma richTextLinks_resolver_witness :
  exists nodes,
    makeRichTextLinksResolver unit
      (fun _ _ => {| Entry := [ {| entity_type := "Entry"; entity_id := "e1" |} ];
                     Asset := [] |})
      "embedded-entry-block" "Entry" tt
      [ {| nodeId := "n1"; owner := "gatsby-source-contentful";
           sys := Some {| sysId := Some "e1"; sysType := Some "Entry" |} |};
        {| nodeId := "n2"; owner := "gatsby-source-contentful";
           sys := Some {| sysId := Some "e2"; sysType := Some "Entry" |} |};
        {| nodeId := "n3"; owner := "gatsby-source-contentful";
           sys := Some {| sysId := Some "e1"; sysType := Some "Asset" |} |};
        {| nodeId := "n4"; owner := "gatsby-source-filesystem"; sys := None |} ]
    = Return nodes
    /\ nodes
       = [ {| nodeId := "n1"; owner := "gatsby-source-contentful";
              sys := Some {| sysId := Some "e1"; sysType := Some "Entry" |} |} ].
Proof.
  destruct (proj1 (richTextLinks_resolver unit
      (fun _ _ => {| Entry := [ {| entity_type := "Entry"; entity_id := "e1" |} ];
                     Asset := [] |})
      "embedded-entry-block" "Entry" tt
      [ {| nodeId := "n1"; owner := "gatsby-source-contentful";
           sys := Some {| sysId := Some "e1"; sysType := Some "Entry" |} |};
        {| nodeId := "n2"; owner := "gatsby-source-contentful";
           sys := Some {| sysId := Some "e2"; sysType := Some "Entry" |} |};
        {| nodeId := "n3"; owner := "gatsby-source-contentful";
           sys := Some {| sysId := Some "e1"; sysType := Some "Asset" |} |};
        {| nodeId := "n4"; owner := "gatsby-source-filesystem"; sys := None |} ])
      (or_introl eq_refl)) as (nodes & Hrun & _).
  exists nodes. split; [exact Hrun |].
  simpl in Hrun. injection Hrun as <-. reflexivity.
Defined.

End SchemaFacts.
